(** * Pixel-paint server: a shallow embedding of [server.js]

    The WebSocket server of the repository keeps three pieces of module
    state ([userList], [tempUserList], [canvasState]) and a flag
    ([userListStale]).  User records are two-element JavaScript arrays that
    are shared by reference between the two user lists, and the two list
    variables themselves may name the same array object (after
    [userList = tempUserList.sort(...)]).  The embedding therefore keeps an
    explicit store of record objects and of array objects, and the
    variables hold addresses into it.

    Handlers are functions from a state to a new state, the frames they
    send, and a completion (normal, or an uncaught exception).  The event
    loop is a list of events handled one after the other: connections,
    frames, closed connections, ticks of the keep-alive interval and
    expiries of the keep-alive timeout.

    An inbound frame is taken after [JSON.parse] and carries a string
    [data] when it carries one; logging and the HTTP routes are left out.

    Numbers are integers or [NaN], held in [Z].  JavaScript holds them as
    doubles, which are exact for the integers up to [2^53] in magnitude
    and round beyond; the identities the server issues are small positive
    integers, but a client may send any digit string.  Equality with a
    small integer is the same in both; the order of two numbers is the
    same when both are safe integers ([safe_integer]), and the statements
    about the order of a list assume that of its identities. *)

From Stdlib Require Import ZArith String Ascii List Lia Permutation Sorted.
From Stdlib Require Import DecimalString.
From Stdlib Require HexadecimalString DecimalZ.
From stdpp Require Import base option list strings.
Import ListNotations.

Local Open Scope string_scope.
Local Open Scope list_scope.
Local Open Scope Z_scope.

(** ** JavaScript primitives used by the server *)

Module JS.

(** [s.split(sep)] for a one-character separator: [n] occurrences of the
    separator give [n+1] pieces, and the empty string gives [[""]]. *)
Fixpoint split (sep : ascii) (s : string) : list string :=
  match s with
  | EmptyString => [EmptyString]
  | String c r =>
      if Ascii.eqb c sep then EmptyString :: split sep r
      else match split sep r with
           | h :: t => String c h :: t
           | [] => [String c EmptyString]
           end
  end.

(** [a.join(sep)] on an array of strings. *)
Fixpoint join (sep : string) (l : list string) : string :=
  match l with
  | [] => ""
  | [x] => x
  | x :: r => x +:+ sep +:+ join sep r
  end.

(** JavaScript numbers are modelled by [Z], exact for the integers the
    server produces and compares; [None] stands for [NaN].  A value of at
    most [2^53] in magnitude is the double JavaScript computes; a larger
    one is the integer that JavaScript would round to a double. *)
Abbreviation number := (option Z) (only parsing).

Definition is_ws (c : ascii) : bool :=
  let n := nat_of_ascii c in
  (Nat.eqb n 32 || (Nat.leb 9 n && Nat.leb n 13))%bool.

Fixpoint strip_ws (s : string) : string :=
  match s with
  | String c r => if is_ws c then strip_ws r else s
  | EmptyString => s
  end.

Definition digit (radix : Z) (c : ascii) : option Z :=
  let n := Z.of_nat (nat_of_ascii c) in
  let v := if (48 <=? n) && (n <=? 57) then Some (n - 48)
           else if (97 <=? n) && (n <=? 102) then Some (n - 87)
           else if (65 <=? n) && (n <=? 70) then Some (n - 55)
           else None in
  match v with
  | Some d => if d <? radix then Some d else None
  | None => None
  end.

(** Longest prefix of digits: the value read so far, whether a digit was
    seen, and the unread rest. *)
Fixpoint digits (radix : Z) (s : string) (acc : Z) (seen : bool)
  : Z * bool * string :=
  match s with
  | String c r =>
      match digit radix c with
      | Some d => digits radix r (acc * radix + d) true
      | None => (acc, seen, s)
      end
  | EmptyString => (acc, seen, s)
  end.

Definition sign_of (s : string) : Z * string :=
  match s with
  | String "-" r => (-1, r)
  | String "+" r => (1, r)
  | _ => (1, s)
  end.

Definition hex_prefix (s : string) : option string :=
  match s with
  | String "0" (String "x" r) => Some r
  | String "0" (String "X" r) => Some r
  | _ => None
  end.

(** [parseInt(s)] with no radix argument: leading white space, an
    optional sign, an optional [0x] prefix, then the longest run of
    digits; trailing text is ignored; no digit at all gives [NaN].  The
    digits are read exactly: the result is JavaScript's when it is at most
    [2^53] in magnitude, and otherwise the integer that JavaScript rounds
    to a double (both are then at least [2^53] in magnitude, so a
    comparison with a smaller number has the same outcome). *)
Definition parseInt (s : string) : number :=
  let '(sg, r) := sign_of (strip_ws s) in
  let '(radix, r) := match hex_prefix r with
                     | Some r' => (16, r')
                     | None => (10, r)
                     end in
  let '(v, seen, _) := digits radix r 0 false in
  if seen then Some (sg * v) else None.

(** [Number(s)], the coercion applied by [a - b], on the integer
    fragment of numeric literals: white space around an optionally signed
    run of decimal digits, or an unsigned hexadecimal literal; the empty
    string is [0].  Every other string is [None]: it is [NaN] in
    JavaScript, or a literal of another form (a fraction, an exponent, a
    binary or octal prefix, [Infinity]), which the model does not read.
    Where the result is [Some n] with [n] at most [2^53] in magnitude it
    is the value of [Number(s)]; the statements below that depend on the
    order of records assume that their identity fields are of that kind
    ([safe_identities]). *)
Definition toNumber (s : string) : number :=
  let t := strip_ws s in
  match t with
  | EmptyString => Some 0
  | _ =>
      match hex_prefix t with
      | Some r =>
          let '(v, seen, rest) := digits 16 r 0 false in
          if seen then
            match strip_ws rest with EmptyString => Some v | _ => None end
          else None
      | None =>
          let '(sg, r) := sign_of t in
          let '(v, seen, rest) := digits 10 r 0 false in
          if seen then
            match strip_ws rest with EmptyString => Some (sg * v) | _ => None end
          else None
      end
  end.

(** [String(n)] for an integer, in decimal digits as JavaScript prints the
    integers below [10^21] in magnitude. *)
Definition numToString (n : Z) : string :=
  NilEmpty.string_of_int (Z.to_int n).

(** Elements of the arrays the server stores. *)
Inductive value : Type :=
| VNum (n : Z)
| VStr (s : string)
| VUndef.

Definition parseIntV (v : value) : number :=
  match v with
  | VNum n => Some n
  | VStr s => parseInt s
  | VUndef => None
  end.

Definition toNumberV (v : value) : number :=
  match v with
  | VNum n => Some n
  | VStr s => toNumber s
  | VUndef => None
  end.

(** An array element as [join] and [toString] print it. *)
Definition valueToString (v : value) : string :=
  match v with
  | VNum n => numToString n
  | VStr s => s
  | VUndef => ""
  end.

(** [x === y] between two numbers: [NaN] equals nothing. *)
Definition num_eq (a b : number) : bool :=
  match a, b with
  | Some x, Some y => x =? y
  | _, _ => false
  end.

(** [n === v] between a number and an array element: a string is never
    strictly equal to a number. *)
Definition num_strict_eq (a : number) (v : value) : bool :=
  match v with
  | VNum y => num_eq a (Some y)
  | _ => false
  end.

(** [a - b]: exact in [Z]; for two safe integers the double that
    JavaScript computes has the same sign and is zero in the same cases. *)
Definition sub (a b : number) : number :=
  match a, b with
  | Some x, Some y => Some (x - y)
  | _, _ => None
  end.

(** [Array.prototype.sort(cmp)] is stable; for a comparator that is
    consistent on the elements every stable sort returns the same array,
    which insertion from the right computes.  A comparator result of [NaN]
    counts as [0]; a comparator that returns [NaN] for some pairs only is
    not consistent, ECMAScript leaves the order of the result to the
    engine, and [sort] then returns one permutation, which need not be the
    engine's.  [userSortFunc] is consistent on records whose identities
    are numbers; the statements that name the order of a sorted list
    assume safe identities, the others hold of every permutation. *)
Section Sort.
Context {A : Type} (cmp : A -> A -> number).

Definition before (x y : A) : bool :=
  match cmp x y with
  | Some d => d <=? 0
  | None => true
  end.

Fixpoint insert_sorted (x : A) (l : list A) : list A :=
  match l with
  | [] => [x]
  | y :: r => if before x y then x :: y :: r else y :: insert_sorted x r
  end.

Fixpoint sort (l : list A) : list A :=
  match l with
  | [] => []
  | x :: r => insert_sorted x (sort r)
  end.
End Sort.

End JS.

Import JS.


(** ** Messages *)

(** A connection of [wsServer.clients]. *)
Abbreviation conn := nat (only parsing).

(** An inbound frame after [JSON.parse]: an object with a [messageType]
    and, when present, a string [data]. *)
Record inmsg : Type := InMsg {
  messageType : string;
  data : option string
}.

(** The [data] field of what the server sends: the number returned by
    [addUser], or a string. *)
Inductive payload : Type :=
| PNum (n : Z)
| PStr (s : string).

(** An outbound frame before [JSON.stringify]. *)
Record outmsg : Type := OutMsg {
  out_messageType : string;
  out_data : option payload;
  out_originalMessage : option inmsg
}.

(** One call of [ws.send]: the receiving connection and the frame. *)
Definition sent := (conn * outmsg)%type.

(** ** Module state of [server.js] *)

(** A user record is the array [[UUID, color]]; [loc] is the address of
    such an array object, [aloc] the address of an array of them. *)
Abbreviation record := (list value) (only parsing).
Abbreviation loc := nat (only parsing).
Abbreviation aloc := nat (only parsing).

Record state : Type := State {
  heap : list record;          (* the user-record objects *)
  arrays : list (list loc);    (* the array objects holding references to them *)
  userList : aloc;             (* let userList *)
  tempUserList : aloc;         (* let tempUserList *)
  canvasState : list string;   (* let canvasState *)
  userListStale : bool;        (* let userListStale *)
  clients : list conn          (* wsServer.clients, in insertion order *)
}.

(** [let userList = []; let tempUserList = []; let canvasState = [];]:
    two distinct empty arrays. *)
Definition init : state :=
  {| heap := []; arrays := [[]; []]; userList := 0%nat; tempUserList := 1%nat;
     canvasState := []; userListStale := false; clients := [] |}.

Definition set_heap (h : list record) (st : state) : state :=
  {| heap := h; arrays := arrays st; userList := userList st;
     tempUserList := tempUserList st; canvasState := canvasState st;
     userListStale := userListStale st; clients := clients st |}.

Definition set_arrays (a : list (list loc)) (st : state) : state :=
  {| heap := heap st; arrays := a; userList := userList st;
     tempUserList := tempUserList st; canvasState := canvasState st;
     userListStale := userListStale st; clients := clients st |}.

Definition set_userList (a : aloc) (st : state) : state :=
  {| heap := heap st; arrays := arrays st; userList := a;
     tempUserList := tempUserList st; canvasState := canvasState st;
     userListStale := userListStale st; clients := clients st |}.

Definition set_tempUserList (a : aloc) (st : state) : state :=
  {| heap := heap st; arrays := arrays st; userList := userList st;
     tempUserList := a; canvasState := canvasState st;
     userListStale := userListStale st; clients := clients st |}.

Definition set_canvasState (c : list string) (st : state) : state :=
  {| heap := heap st; arrays := arrays st; userList := userList st;
     tempUserList := tempUserList st; canvasState := c;
     userListStale := userListStale st; clients := clients st |}.

Definition set_userListStale (b : bool) (st : state) : state :=
  {| heap := heap st; arrays := arrays st; userList := userList st;
     tempUserList := tempUserList st; canvasState := canvasState st;
     userListStale := b; clients := clients st |}.

Definition set_clients (c : list conn) (st : state) : state :=
  {| heap := heap st; arrays := arrays st; userList := userList st;
     tempUserList := tempUserList st; canvasState := canvasState st;
     userListStale := userListStale st; clients := c |}.

(** *** Reading and writing the store *)

(** The record object at an address. *)
Definition deref (st : state) (l : loc) : record :=
  default [] (heap st !! l).

(** The references held by an array object. *)
Definition elems (st : state) (a : aloc) : list loc :=
  default [] (arrays st !! a).

(** The records an array holds, as a reader of the array sees them. *)
Definition contents (st : state) (a : aloc) : list record :=
  deref st <$> elems st a.

(** [u[0]]: a missing element reads as [undefined]. *)
Definition field0 (u : record) : value :=
  default VUndef (u !! 0%nat).

(** [u[1] = v]: assignment past the end extends the array. *)
Definition set_field1 (v : value) (u : record) : record :=
  match u with
  | [] => [VUndef; v]
  | x :: r => x :: v :: tail r
  end.

(** [[...]]: a new record object. *)
Definition new_record (u : record) (st : state) : loc * state :=
  (length (heap st), set_heap (heap st ++ [u]) st).

(** [a.push(l)]. *)
Definition push (a : aloc) (l : loc) (st : state) : state :=
  set_arrays (alter (fun xs => xs ++ [l]) a (arrays st)) st.

(** [a.find(p)]: the first element satisfying [p], or [undefined]. *)
Definition find_user (p : record -> bool) (a : aloc) (st : state) : option loc :=
  List.find (fun l => p (deref st l)) (elems st a).

(** [userRef[1] = v] through a reference. *)
Definition write_color (l : loc) (v : value) (st : state) : state :=
  set_heap (alter (set_field1 v) l (heap st)) st.

(** [const userSortFunc = (a,b) => a[0]-b[0]]. *)
Definition userSortFunc (a b : record) : number :=
  sub (toNumberV (field0 a)) (toNumberV (field0 b)).

(** [a.sort(userSortFunc)]: sorts the array object in place. *)
Definition sort_array (a : aloc) (st : state) : state :=
  set_arrays
    (alter (sort (fun x y => userSortFunc (deref st x) (deref st y))) a (arrays st))
    st.

(** A user record as [toString] prints it, and [a.join(';')] on an array of
    user records. *)
Definition recordToString (u : record) : string :=
  join "," (valueToString <$> u).

Definition joinUsers (st : state) (a : aloc) : string :=
  join ";" (recordToString <$> contents st a).

(** ** The functions of [server.js] *)

(** [broadcast(type, data)]: an absent or empty (falsy) [data] sends the
    frame without a [data] field. *)
Definition broadcast (type : string) (d : option string) (st : state) : list sent :=
  let frame :=
    match d with
    | Some s => if String.eqb s "" then OutMsg type None None
                else OutMsg type (Some (PStr s)) None
    | None => OutMsg type None None
    end in
  (fun client => (client, frame)) <$> clients st.

(** [sendKeepAlive()] up to the [setTimeout] call, whose callback is
    [keepAliveTimeout] below. *)
Definition sendKeepAlive (st : state) : state * list sent :=
  let st := set_userListStale true st in
  let out := broadcast "ping" None st in
  let fresh := length (arrays st) in
  let st := set_tempUserList fresh (set_arrays (arrays st ++ [[]]) st) in
  (st, out).

(** The callback that [sendKeepAlive] passes to [setTimeout]:
    [userList = tempUserList.sort(userSortFunc)] makes both variables name
    the one sorted array. *)
Definition keepAliveTimeout (st : state) : state * list sent :=
  let st := sort_array (tempUserList st) st in
  let st := set_userList (tempUserList st) st in
  let out := broadcast "announceConnectedUsers" (Some (joinUsers st (userList st))) st in
  let st := set_userListStale false st in
  (st, out).

(** The [for] loop of [generateUUID]: [found] after scanning the list. *)
Definition uuid_found (users : list record) (uuid : Z) : bool :=
  fold_left
    (fun found user =>
       if num_eq (parseIntV (field0 user)) (Some uuid) then true else found)
    users false.

(** The [while] loop of [generateUUID], with [fuel] bounding its
    iterations. *)
Fixpoint generateUUID_loop (users : list record) (fuel : nat) (uuid : Z) : option Z :=
  match fuel with
  | O => None
  | S fuel =>
      let uuid := uuid + 1 in
      if uuid_found users uuid then generateUUID_loop users fuel uuid
      else Some uuid
  end.

(** [generateUUID()]: one more iteration than there are users always
    suffices ([generateUUID_loop_total]), so the default is never taken. *)
Definition generateUUID (st : state) : Z :=
  let users := contents st (userList st) in
  default 0 (generateUUID_loop users (S (length users)) 0).

(** [addUser()]. *)
Definition addUser (st : state) : Z * state :=
  let newUUID := generateUUID st in
  let '(newUser, st) := new_record [VNum newUUID; VStr "black"] st in
  let st := push (userList st) newUser st in
  let st := push (tempUserList st) newUser st in
  let st := sort_array (userList st) st in
  (newUUID, st).

(** ** The connection handlers *)

(** How a handler ends: normally, or by an exception nobody catches (a
    [TypeError] from reading a property of [undefined]).  Node ends the
    process on an uncaught exception, so nothing runs after it. *)
Inductive completion : Type :=
| Normal
| Uncaught.

Record result : Type := Result {
  res_state : state;
  res_sent : list sent;
  res_completion : completion
}.

(** The body of the [switch]: it finishes with a value of [validMessage],
    or throws. *)
Inductive outcome : Type :=
| Done (st : state) (out : list sent) (validMessage : bool)
| Thrown (st : state) (out : list sent).

Definition announceUUID (n : Z) : outmsg :=
  OutMsg "announceUUID" (Some (PNum n)) None.

Definition errorMessage (message : inmsg) : outmsg :=
  OutMsg "error" (Some (PStr "Client sent an unrecognized message format"))
         (Some message).

(** [wsServer.on('connection', ...)]: the library has added [ws] to
    [wsServer.clients] when the listener runs. *)
Definition onConnection (ws : conn) (st : state) : state * list sent :=
  let st := set_clients (clients st ++ [ws]) st in
  let '(uuid, st) := addUser st in
  (st, [(ws, announceUUID uuid)]).

(** [case 'userAccepted']. *)
Definition userAccepted (ws : conn) (d : string) (st : state) : outcome :=
  let receivedData := split "," d in
  let id := parseInt (default "undefined" (receivedData !! 0%nat)) in
  match find_user (fun user => num_strict_eq id (field0 user)) (userList st) st with
  | Some userRef =>
      let color := match receivedData !! 1%nat with
                   | Some c => VStr c
                   | None => VUndef
                   end in
      let st := write_color userRef color st in
      let out1 := if userListStale st then []
                  else broadcast "announceConnectedUsers"
                                 (Some (joinUsers st (userList st))) st in
      let out2 := if (0 <? length (canvasState st))%nat
                  then [(ws, OutMsg "paint" (Some (PStr (join ";" (canvasState st)))) None)]
                  else [] in
      Done st (out1 ++ out2) true
  | None => Done st [] false
  end.

(** [case 'pong']. *)
Definition pong (ws : conn) (d : string) (st : state) : outcome :=
  let user := VStr <$> split "," d in
  let '(user, st, out) :=
    if num_eq (parseIntV (field0 user)) (Some (-1)) then
      let '(uuid, st) := addUser st in
      (VNum uuid :: tail user, st, [(ws, announceUUID uuid)])
    else (user, st, []) in
  let '(l, st) := new_record user st in
  Done (push (tempUserList st) l st) out true.

(** The [for] loop of [case 'paint']: the history after the loop and the
    value of [validMessage]. *)
Fixpoint paint_loop (entries : list string) (history : list string)
  : list string * bool :=
  match entries with
  | [] => (history, true)
  | entry :: rest =>
      if (length (split "," entry) =? 3)%nat
      then paint_loop rest (history ++ [entry])
      else (history, false)
  end.

(** [case 'paint']. *)
Definition paint (d : string) (st : state) : outcome :=
  let '(history, validMessage) := paint_loop (split ";" d) (canvasState st) in
  let st := set_canvasState history st in
  Done st (if validMessage then broadcast "paint" (Some d) st else []) validMessage.

(** [case 'updateColor']: [find(...)[1] = ...] throws when [find] returns
    [undefined]. *)
Definition updateColor (d : string) (st : state) : outcome :=
  let fields := split "," d in
  if (length fields =? 2)%nat then
    let id := parseInt (default "undefined" (fields !! 0%nat)) in
    let color := match fields !! 1%nat with
                 | Some c => VStr c
                 | None => VUndef
                 end in
    let same u := num_eq id (parseIntV (field0 u)) in
    if userListStale st then
      match find_user same (tempUserList st) st with
      | Some u => Done (write_color u color st) [] true
      | None => Thrown st []
      end
    else
      match find_user same (userList st) st with
      | Some u =>
          let st := write_color u color st in
          Done st (broadcast "announceConnectedUsers"
                             (Some (joinUsers st (userList st))) st) true
      | None => Thrown st []
      end
  else Done st [] false.

(** The [switch (message.messageType)]: it has no [default] case, and
    [message.data.split] throws when [data] is absent. *)
Definition dispatch (ws : conn) (message : inmsg) (st : state) : outcome :=
  let with_data (k : string -> outcome) :=
    match data message with
    | Some d => k d
    | None => Thrown st []
    end in
  if String.eqb (messageType message) "userAccepted" then
    with_data (fun d => userAccepted ws d st)
  else if String.eqb (messageType message) "pong" then
    with_data (fun d => pong ws d st)
  else if String.eqb (messageType message) "paint" then
    with_data (fun d => paint d st)
  else if String.eqb (messageType message) "updateColor" then
    with_data (fun d => updateColor d st)
  else Done st [] true.

(** [ws.on('message', ...)]. *)
Definition onMessage (ws : conn) (message : inmsg) (st : state) : result :=
  match dispatch ws message st with
  | Done st out validMessage =>
      Result st
             (out ++ if validMessage then [] else [(ws, errorMessage message)])
             Normal
  | Thrown st out => Result st out Uncaught
  end.

(** [ws.on('close', ...)]: the library has removed [ws] from
    [wsServer.clients] when the listener runs. *)
Definition onClose (ws : conn) (st : state) : state * list sent :=
  sendKeepAlive
    (set_clients (List.filter (fun c => negb (Nat.eqb c ws)) (clients st)) st).

(** ** Runs of the server *)

(** What the event loop delivers: a new connection, a frame, a closed
    connection, a tick of [setInterval(sendKeepAlive, pingIntervalMS)], and
    the expiry of a timer set by [sendKeepAlive]. *)
Inductive event : Type :=
| Connection (ws : conn)
| Message (ws : conn) (message : inmsg)
| Close (ws : conn)
| Interval
| Timeout.

Definition normally (r : state * list sent) : result :=
  Result (fst r) (snd r) Normal.

Definition step (ev : event) (st : state) : result :=
  match ev with
  | Connection ws => normally (onConnection ws st)
  | Message ws message => onMessage ws message st
  | Close ws => normally (onClose ws st)
  | Interval => normally (sendKeepAlive st)
  | Timeout => normally (keepAliveTimeout st)
  end.

(** The events are handled one after the other; after an uncaught exception
    the process is gone and the remaining events are not handled. *)
Fixpoint run (evs : list event) (st : state) : result :=
  match evs with
  | [] => Result st [] Normal
  | ev :: rest =>
      let r := step ev st in
      match res_completion r with
      | Uncaught => r
      | Normal =>
          let r' := run rest (res_state r) in
          Result (res_state r') (res_sent r ++ res_sent r') (res_completion r')
      end
  end.

(** The identities of the authoritative list, as [generateUUID] and
    [updateColor] read them. *)
Definition identities (st : state) (a : aloc) : list number :=
  (fun u => parseIntV (field0 u)) <$> contents st a.

(** The frames a connection receives, in order. *)
Definition received (ws : conn) (out : list sent) : list outmsg :=
  snd <$> List.filter (fun p => Nat.eqb (fst p) ws) out.

(** A [paint] entry the server accepts: exactly three comma-separated
    fields. *)
Definition well_formed_entry (entry : string) : bool :=
  (length (split "," entry) =? 3)%nat.

(** The entries of a batch up to its first malformed one. *)
Fixpoint accepted_prefix (entries : list string) : list string :=
  match entries with
  | [] => []
  | entry :: rest =>
      if well_formed_entry entry then entry :: accepted_prefix rest else []
  end.

(** ** Vocabulary of the statements *)

(** Some record of the array [a] carries the identity [id], read with
    [parseInt] as [updateColor] and [generateUUID] read it. *)
Definition holds (st : state) (a : aloc) (id : number) : bool :=
  existsb (fun u => num_eq id (parseIntV (field0 u))) (contents st a).

(** A client connects and answers the identity it is told with its
    colour. *)
Definition first_handshake (ws : conn) : list event :=
  [Connection ws; Message ws (InMsg "userAccepted" (Some "1,#ff0000"))].

(** The numeric identity [userSortFunc] compares. *)
Definition sort_key (u : record) : number := toNumberV (field0 u).

(** [a] may stand before [b] in ascending order of identity. *)
Definition identity_le (a b : record) : Prop :=
  match sort_key a, sort_key b with
  | Some x, Some y => x <= y
  | _, _ => False
  end.

(** Every record of the list has a numeric identity. *)
Definition numeric_identities (l : list record) : Prop :=
  Forall (fun u => is_Some (sort_key u)) l.

(** [Number.isSafeInteger]: an integer of at most [2^53 - 1] in magnitude.
    On safe integers the model's numbers, their differences and their
    order are those of JavaScript's doubles. *)
Definition safe_integer (x : number) : bool :=
  match x with
  | Some n => Z.abs n <=? 9007199254740991
  | None => false
  end.

(** Every record of the list has a safe integer for its identity, as
    [userSortFunc] reads it. *)
Definition safe_identities (l : list record) : Prop :=
  Forall (fun u => safe_integer (sort_key u) = true) l.

(** Both list variables name array objects, and every reference held by an
    array names a record object. *)
Definition wfb (st : state) : bool :=
  (userList st <? length (arrays st))%nat
  && (tempUserList st <? length (arrays st))%nat
  && forallb (forallb (fun l => (l <? length (heap st))%nat)) (arrays st).

Definition wf (st : state) : Prop := wfb st = true.

(** From [st] to [st'] the provisional variable still names the same array,
    that array has kept every reference it held, and every record object
    has kept its identity field. *)
Definition grows (st st' : state) : Prop :=
  tempUserList st' = tempUserList st
  /\ (forall l, l ∈ elems st (tempUserList st) -> l ∈ elems st' (tempUserList st))
  /\ (length (heap st) <= length (heap st'))%nat
  /\ (forall l, (l < length (heap st))%nat ->
                field0 (deref st' l) = field0 (deref st l)).

(** An event that starts no new sweep: anything but a tick of the interval
    and a closed connection, the two callers of [sendKeepAlive]. *)
Definition same_sweep (ev : event) : bool :=
  match ev with
  | Interval | Close _ => false
  | _ => true
  end.

(** An event for which the server calls [addUser]: a new connection, or a
    [pong] whose identity field reads as the sentinel [-1]. *)
Definition allocates (ev : event) : bool :=
  match ev with
  | Connection _ => true
  | Message _ (InMsg tag (Some d)) =>
      String.eqb tag "pong"
      && num_eq (parseIntV (field0 (VStr <$> split "," d))) (Some (-1))
  | _ => false
  end.

(** The identity fields of the records an array holds. *)
Definition ids (st : state) (a : nat) : list value :=
  field0 <$> contents st a.






(** ** The client: [App.js] *)

(** The browser side of the protocol: the colour helpers, the handler of
    [ws.onmessage] and the input handlers of the effect.  The handler
    takes the frames as the server model builds them and sends frames as
    the server model takes them.  The model follows one run of the effect:
    the colour does not change, and the re-run that React schedules after
    [setForeignUserList] (cleanup, a new queue and new listeners) is not
    part of a handler and is not modelled. *)

Module Client.

(** [n.toString(16)] for an integer. *)
Definition toString16 (n : Z) : string :=
  HexadecimalString.NilEmpty.string_of_int (Z.to_hex_int n).

(** [randomColor()], given the three values that
    [Math.floor(Math.random() * 256)] takes, in the order of the calls. *)
Definition randomColor (r g b : Z) : string :=
  "#" +:+ join "" [toString16 r; toString16 g; toString16 b].

(** [randomOrCachedColor()] on the item ['color'] of [localStorage]: the
    colour returned and the item afterwards.  A missing or empty item is
    falsy. *)
Definition randomOrCachedColor (r g b : Z) (item : option string)
  : string * option string :=
  let generate := (randomColor r g b, Some (randomColor r g b)) in
  match item with
  | Some col => if String.eqb col "" then generate else (col, item)
  | None => generate
  end.

(** The module variables [currentUserId] and [clientPainting], the state
    [color] and [foreignUserList] of the component, the queue of the
    effect, and the calls of [paint] made on the canvas so far, each with
    its [x], [y] and [color]. *)
Record client : Type := Client {
  currentUserId : value;
  color : string;
  foreignUserList : list (list string);
  paintInstructionQueue : list (Z * Z * string);
  clientPainting : bool;
  painted : list (option Z * option Z * string)
}.

(** [let currentUserId = -1; let clientPainting = false;] with the colour
    the component starts with. *)
Definition start (col : string) : client :=
  {| currentUserId := VNum (-1); color := col; foreignUserList := [];
     paintInstructionQueue := []; clientPainting := false; painted := [] |}.

Definition set_currentUserId (v : value) (c : client) : client :=
  {| currentUserId := v; color := color c; foreignUserList := foreignUserList c;
     paintInstructionQueue := paintInstructionQueue c;
     clientPainting := clientPainting c; painted := painted c |}.

Definition set_foreignUserList (l : list (list string)) (c : client) : client :=
  {| currentUserId := currentUserId c; color := color c; foreignUserList := l;
     paintInstructionQueue := paintInstructionQueue c;
     clientPainting := clientPainting c; painted := painted c |}.

Definition set_paintInstructionQueue (q : list (Z * Z * string)) (c : client) : client :=
  {| currentUserId := currentUserId c; color := color c;
     foreignUserList := foreignUserList c; paintInstructionQueue := q;
     clientPainting := clientPainting c; painted := painted c |}.

Definition set_clientPainting (b : bool) (c : client) : client :=
  {| currentUserId := currentUserId c; color := color c;
     foreignUserList := foreignUserList c;
     paintInstructionQueue := paintInstructionQueue c;
     clientPainting := b; painted := painted c |}.

Definition set_painted (l : list (option Z * option Z * string)) (c : client) : client :=
  {| currentUserId := currentUserId c; color := color c;
     foreignUserList := foreignUserList c;
     paintInstructionQueue := paintInstructionQueue c;
     clientPainting := clientPainting c; painted := l |}.

(** A value as string concatenation prints it. *)
Definition toStringV (v : value) : string :=
  match v with
  | VNum n => numToString n
  | VStr s => s
  | VUndef => "undefined"
  end.

(** [currentUserId + ',' + color]. *)
Definition identity (c : client) : string :=
  toStringV (currentUserId c) +:+ "," +:+ color c.

(** [message.data] as the handler reads it. *)
Definition data_value (message : outmsg) : value :=
  match out_data message with
  | Some (PNum n) => VNum n
  | Some (PStr s) => VStr s
  | None => VUndef
  end.

(** What the handler does with a frame: the client afterwards, the frames
    it sends, and how it ends. *)
Record reaction : Type := Reaction {
  rea_client : client;
  rea_sent : list inmsg;
  rea_completion : completion
}.

(** One [paint] entry as the handler reads it: [parseInt] of the first two
    fields and the third field. *)
Definition instruction (entry : string) : option Z * option Z * string :=
  let paintInstruction := split "," entry in
  (parseInt (default "undefined" (paintInstruction !! 0%nat)),
   parseInt (default "undefined" (paintInstruction !! 1%nat)),
   default "undefined" (paintInstruction !! 2%nat)).

(** The [for] loop of [case 'paint']: it paints entry after entry and
    stops at the first one that does not have three fields. *)
Fixpoint paint_loop (entries : list string)
    (drawn : list (option Z * option Z * string))
  : list (option Z * option Z * string) :=
  match entries with
  | [] => drawn
  | entry :: rest =>
      if (length (split "," entry) =? 3)%nat
      then paint_loop rest (drawn ++ [instruction entry])
      else drawn
  end.

(** [ws.onmessage]: [message.data.split] throws unless [data] is a
    string. *)
Definition onmessage (message : outmsg) (c : client) : reaction :=
  let tag := out_messageType message in
  if String.eqb tag "announceUUID" then
    let c := set_currentUserId (data_value message) c in
    Reaction c [InMsg "userAccepted" (Some (identity c))] Normal
  else if String.eqb tag "announceConnectedUsers" then
    match data_value message with
    | VStr s =>
        let tmpForeignUserList :=
          List.filter
            (fun user =>
               negb (num_strict_eq (parseInt (default "undefined" (user !! 0%nat)))
                                   (currentUserId c)))
            (split "," <$> split ";" s) in
        Reaction (set_foreignUserList tmpForeignUserList c) [] Normal
    | _ => Reaction c [] Uncaught
    end
  else if String.eqb tag "paint" then
    match data_value message with
    | VStr s =>
        Reaction (set_painted (paint_loop (split ";" s) (painted c)) c) [] Normal
    | _ => Reaction c [] Uncaught
    end
  else if String.eqb tag "ping" then
    Reaction c [InMsg "pong" (Some (identity c))] Normal
  else Reaction c [] Normal.

(** An entry [[x,y,color]] of the queue as [join] prints it. *)
Definition entryToString (e : Z * Z * string) : string :=
  let '(x, y, col) := e in
  join "," [numToString x; numToString y; col].

(** [sendPaintInstructionQueue]. *)
Definition sendPaintInstructionQueue (c : client) : client * list inmsg :=
  if (0 <? length (paintInstructionQueue c))%nat then
    (set_paintInstructionQueue [] c,
     [InMsg "paint" (Some (join ";" (entryToString <$> paintInstructionQueue c)))])
  else (c, []).

(** [setClientPainting]: [currentUserId !== -1]. *)
Definition setClientPainting (c : client) : client * list inmsg :=
  let painting := negb (num_strict_eq (Some (-1)) (currentUserId c)) in
  let c := set_clientPainting painting c in
  (c, if painting then [InMsg "updateColor" (Some (identity c))] else []).

(** [setClientNotPainting]. *)
Definition setClientNotPainting (c : client) : client :=
  set_clientPainting false c.

(** [handleMouseMove] and [handleTouch], given the rounded offsets [x] and
    [y] of the pointer in the canvas. *)
Definition handleMouseMove (x y : Z) (c : client) : client :=
  if clientPainting c
  then set_paintInstructionQueue (paintInstructionQueue c ++ [(x, y, color c)]) c
  else c.

(** What happens in the page: the pointer goes down on the canvas, moves,
    goes up, and the 50 ms interval ticks. *)
Inductive input : Type :=
| MouseDown
| MouseMove (x y : Z)
| MouseUp
| Tick.

Definition handle (i : input) (c : client) : client * list inmsg :=
  match i with
  | MouseDown => setClientPainting c
  | MouseMove x y => (handleMouseMove x y c, [])
  | MouseUp => (setClientNotPainting c, [])
  | Tick => sendPaintInstructionQueue c
  end.

Fixpoint handle_all (inputs : list input) (c : client) : client * list inmsg :=
  match inputs with
  | [] => (c, [])
  | i :: rest =>
      let '(c1, out1) := handle i c in
      let '(c2, out2) := handle_all rest c1 in
      (c2, out1 ++ out2)
  end.

End Client.

(** ** More vocabulary *)

(** The character [c] occurs in [s]. *)
Fixpoint contains (c : ascii) (s : string) : bool :=
  match s with
  | EmptyString => false
  | String a r => Ascii.eqb a c || contains c r
  end.

(** A colour that can travel in the protocol: it holds neither separator. *)
Definition plain (col : string) : bool :=
  negb (contains "," col) && negb (contains ";" col).

(** The history holds only entries of three fields without [;]. *)
Definition history_ok (st : state) : bool :=
  forallb (fun entry => well_formed_entry entry && negb (contains ";" entry))
          (canvasState st).

(** While the list is stale the two variables name different arrays. *)
Definition stale_distinct (st : state) : bool :=
  negb (userListStale st) || negb (Nat.eqb (userList st) (tempUserList st)).

(** An event that commits a sweep: the expiry of the timer. *)
Definition commits (ev : event) : bool :=
  match ev with
  | Timeout => true
  | _ => false
  end.

(** The record at [l] carries the identity [n] as a number, the
    authoritative list holds it, and no other record the list holds
    carries that number. *)
Definition listed_once (l : loc) (n : Z) (st : state) : Prop :=
  l ∈ elems st (userList st)
  /\ (exists col, deref st l = [VNum n; col])
  /\ forall l', l' ∈ elems st (userList st) ->
                field0 (deref st l') = VNum n -> l' = l.

(** The frames of a list that carry a given tag. *)
Definition tagged (tag : string) (out : list sent) : list sent :=
  List.filter (fun p => String.eqb (out_messageType (snd p)) tag) out.

(** The frames of a list that carry the tag ["error"]. *)
Definition errors (out : list sent) : list sent :=
  List.filter (fun p => String.eqb (out_messageType (snd p)) "error") out.

(** * Properties of the handlers *)

(** ** The primitives on examples *)

Example split_examples :
  split "," "1,2,red" = ["1"; "2"; "red"]
  /\ split ";" "1,2,red;3,4" = ["1,2,red"; "3,4"]
  /\ split "," "" = [""].
Proof. repeat split. Qed.

Example parseInt_examples :
  parseInt "-1" = Some (-1) /\ parseInt " 12px" = Some 12
  /\ parseInt "0x1f" = Some 31 /\ parseInt "abc" = None /\ parseInt "" = None.
Proof. repeat split. Qed.

Example toNumber_examples :
  toNumber "12" = Some 12 /\ toNumber " -7 " = Some (-7) /\ toNumber "" = Some 0
  /\ toNumber "12px" = None /\ toNumber "abc" = None.
Proof. repeat split. Qed.

Example joinUsers_example :
  recordToString [VNum 3; VStr "black"] = "3,black"
  /\ recordToString [VStr "7"] = "7"
  /\ join ";" ["1,#ff0000"; "2,#00ff00"] = "1,#ff0000;2,#00ff00".
Proof. repeat split. Qed.

Example sort_is_stable :
  sort userSortFunc [[VStr "2"; VStr "a"]; [VNum 1; VStr "b"]; [VStr "2"; VStr "c"]]
    = [[VNum 1; VStr "b"]; [VStr "2"; VStr "a"]; [VStr "2"; VStr "c"]].
Proof. reflexivity. Qed.

(** ** The paint handler *)

Section Paint.

(** The loop appends the longest prefix of well-formed entries and reports
    whether it reached the end. *)
Lemma paint_loop_spec entries history :
  paint_loop entries history =
    (history ++ accepted_prefix entries,
     forallb well_formed_entry entries).
Proof.
  revert history.
  induction entries as [|entry rest IH]; intros history; simpl.
  - by rewrite app_nil_r.
  - unfold well_formed_entry.
    destruct (length (split "," entry) =? 3)%nat; simpl.
    + rewrite IH, <- app_assoc. done.
    + by rewrite app_nil_r.
Qed.

(** A batch with a malformed entry is not broadcast, and the sender gets
    exactly one error frame. *)
Lemma paint_malformed_reported ws d st :
  forallb well_formed_entry (split ";" d) = false ->
  res_sent (onMessage ws (InMsg "paint" (Some d)) st)
    = [(ws, errorMessage (InMsg "paint" (Some d)))]
  /\ res_completion (onMessage ws (InMsg "paint" (Some d)) st) = Normal.
Proof.
  intros Hbad. unfold onMessage, dispatch, paint. simpl.
  rewrite paint_loop_spec, Hbad. simpl. done.
Qed.

(** What the history holds after any [paint] frame. *)
Lemma paint_history ws d st :
  canvasState (res_state (onMessage ws (InMsg "paint" (Some d)) st))
    = canvasState st ++ accepted_prefix (split ";" d).
Proof.
  unfold onMessage, dispatch, paint. simpl.
  rewrite paint_loop_spec. simpl. done.
Qed.

End Paint.

(** C1 (code defect).  The batch ["1,2,red;3,4"] has a malformed second
    entry; the server reports one error to the sender and broadcasts
    nothing, but the well-formed first entry has already been appended to
    [canvasState]: the rejection is not all-or-nothing. *)
Theorem paint_malformed_batch_keeps_prefix (ws : conn) (st : state) :
  let message := InMsg "paint" (Some "1,2,red;3,4") in
  let r := onMessage ws message st in
  forallb well_formed_entry (split ";" "1,2,red;3,4") = false
  /\ canvasState (res_state r) = canvasState st ++ ["1,2,red"]
  /\ res_sent r = [(ws, errorMessage message)]
  /\ res_completion r = Normal.
Proof.
  cbv zeta. split; [reflexivity|]. split.
  - by rewrite paint_history.
  - by apply paint_malformed_reported.
Qed.

(** ** Identities the registry does not hold *)

Section UnknownIdentity.

Lemma find_user_None p a st :
  find_user p a st = None <-> existsb p (contents st a) = false.
Proof.
  unfold find_user, contents.
  induction (elems st a) as [|l ls IH]; simpl; [done|].
  destruct (p (deref st l)); simpl; [split; discriminate | exact IH].
Qed.

Lemma find_user_Some p a st l :
  find_user p a st = Some l -> l ∈ elems st a /\ p (deref st l) = true.
Proof.
  unfold find_user. intros H. apply find_some in H as [Hin Hp].
  split; [by apply list_elem_of_In | done].
Qed.

(** The handshake path checks the result of [find]: an identity that the
    authoritative list does not hold is reported to the sender, nothing
    else is sent and the state is unchanged. *)
Lemma userAccepted_unknown_reported ws d st :
  existsb (fun user => num_strict_eq (parseInt (default "undefined" (split "," d !! 0%nat)))
                                     (field0 user))
          (contents st (userList st)) = false ->
  onMessage ws (InMsg "userAccepted" (Some d)) st
    = Result st [(ws, errorMessage (InMsg "userAccepted" (Some d)))] Normal.
Proof.
  intros H. apply find_user_None in H.
  unfold onMessage, dispatch, userAccepted. simpl. by rewrite H.
Qed.

End UnknownIdentity.

(** C4 (code defect).  A colour change for an identity that the consulted
    list does not hold makes [find] return [undefined]; the assignment to
    its element [1] throws, so nothing is reported to the sender and the
    handler ends with an uncaught exception, unlike [userAccepted], which
    reports the error. *)
Theorem updateColor_unknown_identity_uncaught
    (ws : conn) (d id color : string) (st : state) :
  split "," d = [id; color] ->
  holds st (if userListStale st then tempUserList st else userList st)
        (parseInt id) = false ->
  onMessage ws (InMsg "updateColor" (Some d)) st = Result st [] Uncaught.
Proof.
  intros Hd Hunknown. unfold holds in Hunknown.
  unfold onMessage, dispatch, updateColor. simpl. rewrite Hd. simpl.
  destruct (userListStale st);
    apply find_user_None in Hunknown; by rewrite Hunknown.
Qed.

Lemma updateColor_unknown_identity_uncaught_witness :
  let st := res_state (run [Connection 0%nat] init) in
  onMessage 0%nat (InMsg "updateColor" (Some "5,#00ff00")) st = Result st [] Uncaught.
Proof.
  apply (updateColor_unknown_identity_uncaught 0%nat "5,#00ff00" "5" "#00ff00");
    reflexivity.
Defined.

(** C5 (code defect).  The [switch] has no [default] case: a frame whose
    tag is none of the four handled ones leaves [validMessage] true, so
    the server sends nothing, in particular no error, and changes
    nothing. *)
Theorem unrecognized_tag_ignored (ws : conn) (message : inmsg) (st : state) :
  messageType message <> "userAccepted" ->
  messageType message <> "pong" ->
  messageType message <> "paint" ->
  messageType message <> "updateColor" ->
  onMessage ws message st = Result st [] Normal.
Proof.
  intros H1 H2 H3 H4. unfold onMessage, dispatch.
  apply String.eqb_neq in H1, H2, H3, H4.
  by rewrite H1, H2, H3, H4.
Qed.

Lemma unrecognized_tag_ignored_witness :
  let st := res_state (run [Connection 0%nat] init) in
  onMessage 0%nat (InMsg "erase" (Some "3,4")) st = Result st [] Normal.
Proof.
  apply unrecognized_tag_ignored; discriminate.
Defined.

(** ** The first connection to a fresh server *)


(** ** Sorting user records *)

Section SortFacts.
Context {A : Type} (cmp : A -> A -> number).

Lemma insert_sorted_perm x l : insert_sorted cmp x l ≡ₚ x :: l.
Proof.
  induction l as [|y r IH]; simpl; [done|].
  destruct (before cmp x y); [done|].
  rewrite IH. apply perm_swap.
Qed.

Lemma sort_perm l : sort cmp l ≡ₚ l.
Proof.
  induction l as [|x r IH]; simpl; [done|].
  by rewrite insert_sorted_perm, IH.
Qed.

Lemma sort_length l : length (sort cmp l) = length l.
Proof. by rewrite sort_perm. Qed.

Lemma elem_of_sort x l : x ∈ sort cmp l <-> x ∈ l.
Proof. by rewrite sort_perm. Qed.
End SortFacts.

(** Sorting references by the records they point to is sorting the
    records. *)
Lemma insert_sorted_fmap {A B : Type} (f : A -> B) (cmp : B -> B -> number) x l :
  insert_sorted cmp (f x) (f <$> l)
    = f <$> insert_sorted (fun a b => cmp (f a) (f b)) x l.
Proof.
  induction l as [|y r IH]; [done|].
  rewrite fmap_cons. cbn [insert_sorted]. unfold before.
  destruct (cmp (f x) (f y)) as [d|]; [|done].
  destruct (d <=? 0); [done|]. by rewrite IH.
Qed.

Lemma sort_fmap {A B : Type} (f : A -> B) (cmp : B -> B -> number) l :
  sort cmp (f <$> l) = f <$> sort (fun a b => cmp (f a) (f b)) l.
Proof.
  induction l as [|x r IH]; [done|].
  rewrite fmap_cons. cbn [sort]. by rewrite IH, insert_sorted_fmap.
Qed.

Section SortedByIdentity.

Lemma userSortFunc_before a b x y :
  sort_key a = Some x -> sort_key b = Some y ->
  before userSortFunc a b = (x <=? y).
Proof.
  unfold before, userSortFunc, sort_key. intros -> ->. simpl.
  destruct (Z.leb_spec x y), (Z.leb_spec (x - y) 0); (done || lia).
Qed.

Lemma identity_le_trans a b c :
  identity_le a b -> identity_le b c -> identity_le a c.
Proof.
  unfold identity_le.
  destruct (sort_key a), (sort_key b), (sort_key c); (done || lia).
Qed.

Lemma insert_sorted_sorted u l :
  is_Some (sort_key u) -> numeric_identities l ->
  Sorted identity_le l -> Sorted identity_le (insert_sorted userSortFunc u l).
Proof.
  intros [x Hx] Hnum Hsorted.
  induction l as [|v r IH]; simpl.
  - repeat constructor.
  - apply Forall_cons in Hnum as [[y Hy] Hnum].
    rewrite (userSortFunc_before u v x y Hx Hy).
    destruct (Z.leb_spec x y) as [Hle|Hgt].
    + constructor; [done|]. constructor. unfold identity_le. by rewrite Hx, Hy.
    + apply Sorted_inv in Hsorted as [Hsorted Hhd].
      constructor; [by apply IH|].
      destruct r as [|w r']; simpl.
      * constructor. unfold identity_le. rewrite Hx, Hy. lia.
      * apply Forall_cons in Hnum as [[z Hz] _].
        rewrite (userSortFunc_before u w x z Hx Hz).
        destruct (Z.leb_spec x z).
        -- constructor. unfold identity_le. rewrite Hx, Hy. lia.
        -- constructor. by apply HdRel_inv in Hhd.
Qed.

Lemma numeric_identities_perm l k :
  l ≡ₚ k -> numeric_identities l -> numeric_identities k.
Proof. unfold numeric_identities. by intros ->. Qed.

Lemma safe_integer_is_Some x : safe_integer x = true -> is_Some x.
Proof. by destruct x. Qed.

Lemma safe_identities_numeric l : safe_identities l -> numeric_identities l.
Proof.
  unfold safe_identities, numeric_identities. intros Hsafe.
  eapply Forall_impl; [exact Hsafe|]. intros u. apply safe_integer_is_Some.
Qed.

(** On records with numeric identities the sort yields ascending
    identities. *)
Lemma sort_sorted l :
  numeric_identities l -> StronglySorted identity_le (sort userSortFunc l).
Proof.
  intros Hnum. apply Sorted_StronglySorted.
  { intros a b c. apply identity_le_trans. }
  induction l as [|u r IH]; simpl; [constructor|].
  apply Forall_cons in Hnum as [Hu Hnum].
  apply insert_sorted_sorted; [done| |by apply IH].
  by apply (numeric_identities_perm r); [symmetry; apply sort_perm|].
Qed.

End SortedByIdentity.

(** ** The store operations *)

Section Store.

Lemma wf_alt st :
  wf st <->
  (userList st < length (arrays st))%nat
  /\ (tempUserList st < length (arrays st))%nat
  /\ Forall (Forall (fun l => (l < length (heap st))%nat)) (arrays st).
Proof.
  unfold wf, wfb. rewrite !andb_true_iff, !Nat.ltb_lt, forallb_forall, Forall_forall.
  split; intros [[H1 H2] H3] || intros (H1 & H2 & H3).
  - repeat split; try done. intros ls Hls. apply Forall_forall. intros l Hl.
    apply list_elem_of_In, H3 in Hls. rewrite forallb_forall in Hls.
    apply Nat.ltb_lt, Hls. by apply list_elem_of_In.
  - repeat split; try done. intros ls Hls. apply forallb_forall. intros l Hl.
    apply list_elem_of_In, H3 in Hls. rewrite Forall_forall in Hls.
    apply Nat.ltb_lt, Hls. by apply list_elem_of_In.
Qed.

Lemma wf_init : wf init.
Proof. reflexivity. Qed.

Lemma wf_elems st a l : wf st -> l ∈ elems st a -> (l < length (heap st))%nat.
Proof.
  intros (_ & _ & Hall)%wf_alt Hl. unfold elems in Hl.
  destruct (arrays st !! a) as [ls|] eqn:Ha; simpl in Hl.
  - rewrite Forall_forall in Hall.
    assert (ls ∈ arrays st) as Hin by (eapply list_elem_of_lookup_2; eauto).
    specialize (Hall ls Hin). rewrite Forall_forall in Hall. by apply Hall.
  - by apply elem_of_nil in Hl.
Qed.

Lemma elems_push_eq a l st :
  (a < length (arrays st))%nat -> elems (push a l st) a = elems st a ++ [l].
Proof.
  intros Ha.
  destruct (lookup_lt_is_Some_2 (arrays st) a Ha) as [ls Hls].
  unfold elems, push. simpl. by rewrite list_lookup_alter_eq, !Hls.
Qed.

Lemma elems_push_ne a b l st : a <> b -> elems (push a l st) b = elems st b.
Proof.
  intros Hab. unfold elems, push. simpl. by rewrite list_lookup_alter_ne.
Qed.

Lemma elems_sort_array_eq a st :
  elems (sort_array a st) a
    = sort (fun x y => userSortFunc (deref st x) (deref st y)) (elems st a).
Proof.
  unfold elems, sort_array. simpl. rewrite list_lookup_alter_eq.
  by destruct (arrays st !! a).
Qed.

Lemma elems_sort_array_ne a b st : a <> b -> elems (sort_array a st) b = elems st b.
Proof.
  intros Hab. unfold elems, sort_array. simpl. by rewrite list_lookup_alter_ne.
Qed.

Lemma elems_sort_array_perm a b st : elems (sort_array a st) b ≡ₚ elems st b.
Proof.
  destruct (decide (a = b)) as [->|Hab].
  - rewrite elems_sort_array_eq. apply sort_perm.
  - by rewrite elems_sort_array_ne.
Qed.

(** In-place sorting shows the reader of the array the sorted records. *)
Lemma contents_sort_array_eq a st :
  contents (sort_array a st) a = sort userSortFunc (contents st a).
Proof.
  unfold contents at 1. rewrite elems_sort_array_eq.
  unfold contents. by rewrite sort_fmap.
Qed.

Lemma deref_new_record_old u st l :
  (l < length (heap st))%nat -> deref (snd (new_record u st)) l = deref st l.
Proof.
  intros Hl. unfold deref, new_record. simpl. by rewrite lookup_app_l.
Qed.

Lemma deref_new_record_new u st :
  deref (snd (new_record u st)) (fst (new_record u st)) = u.
Proof.
  unfold deref, new_record. simpl.
  by rewrite list_lookup_middle.
Qed.

Lemma deref_write_color_ne l l' v st :
  l <> l' -> deref (write_color l v st) l' = deref st l'.
Proof.
  intros Hll. unfold deref, write_color. simpl. by rewrite list_lookup_alter_ne.
Qed.

Lemma deref_write_color_eq l v st :
  (l < length (heap st))%nat ->
  deref (write_color l v st) l = set_field1 v (deref st l).
Proof.
  intros Hl.
  destruct (lookup_lt_is_Some_2 (heap st) l Hl) as [u Hu].
  unfold deref, write_color. simpl. by rewrite list_lookup_alter_eq, !Hu.
Qed.

Lemma field0_set_field1 v u : field0 (set_field1 v u) = field0 u.
Proof. by destruct u. Qed.

(** Writing a colour never changes an identity. *)
Lemma field0_write_color l l' v st :
  field0 (deref (write_color l v st) l') = field0 (deref st l').
Proof.
  destruct (decide (l = l')) as [<-|Hne]; [|by rewrite deref_write_color_ne].
  unfold deref, write_color. simpl. rewrite list_lookup_alter_eq.
  destruct (heap st !! l); simpl; [apply field0_set_field1 | done].
Qed.

End Store.

(** ** Allocation of identities *)

Section Allocation.

Lemma num_eq_sym a b : num_eq a b = num_eq b a.
Proof. destruct a, b; simpl; try done. apply Z.eqb_sym. Qed.

Lemma num_eq_true a b : num_eq a b = true <-> exists n, a = Some n /\ b = Some n.
Proof.
  destruct a as [x|], b as [y|]; simpl.
  - rewrite Z.eqb_eq. split; [intros ->; eauto | intros (n & [= ->] & [= ->]); done].
  - split; [done | intros (n & _ & [=])].
  - split; [done | intros (n & [=] & _)].
  - split; [done | intros (n & [=] & _)].
Qed.

(** The [for] loop computes whether some user carries the identity. *)
Lemma uuid_found_existsb users uuid :
  uuid_found users uuid
    = existsb (fun u => num_eq (Some uuid) (parseIntV (field0 u))) users.
Proof.
  unfold uuid_found.
  assert (forall acc,
    fold_left (fun found user =>
                 if num_eq (parseIntV (field0 user)) (Some uuid) then true else found)
              users acc
    = (acc || existsb (fun u => num_eq (Some uuid) (parseIntV (field0 u))) users)%bool)
    as Hgen.
  { induction users as [|u r IH]; intros acc; cbn [fold_left existsb].
    - by rewrite orb_false_r.
    - rewrite IH, (num_eq_sym (parseIntV (field0 u))).
      destruct (num_eq (Some uuid) (parseIntV (field0 u))), acc; done. }
  by rewrite Hgen.
Qed.

Lemma uuid_found_elem_of users uuid :
  uuid_found users uuid = true
  <-> Some uuid ∈ (fun u => parseIntV (field0 u)) <$> users.
Proof.
  rewrite uuid_found_existsb, existsb_exists, list_elem_of_fmap.
  split.
  - intros (u & Hin & Heq). apply num_eq_true in Heq as (n & [= <-] & Hn).
    exists u. split; [done | by apply list_elem_of_In].
  - intros (u & Heq & Hin). exists u. split; [by apply list_elem_of_In|].
    apply num_eq_true. eauto.
Qed.

(** What the [while] loop returns: the first identity above [uuid] that
    no user carries; it gives up only if all [fuel] candidates are
    taken. *)
Lemma generateUUID_loop_Some users fuel uuid n :
  generateUUID_loop users fuel uuid = Some n ->
  uuid < n <= uuid + Z.of_nat fuel
  /\ uuid_found users n = false
  /\ forall m, uuid < m < n -> uuid_found users m = true.
Proof.
  revert uuid. induction fuel as [|fuel IH]; intros uuid; simpl; [done|].
  destruct (uuid_found users (uuid + 1)) eqn:Hfound.
  - intros H. apply IH in H as (Hrange & Hfree & Hbelow).
    split; [lia|]. split; [done|].
    intros m Hm. destruct (decide (m = uuid + 1)) as [->|]; [done|].
    apply Hbelow. lia.
  - intros [= <-]. split; [lia|]. split; [done|]. intros m Hm. lia.
Qed.

Lemma generateUUID_loop_None users fuel uuid :
  generateUUID_loop users fuel uuid = None ->
  forall m, uuid < m <= uuid + Z.of_nat fuel -> uuid_found users m = true.
Proof.
  revert uuid. induction fuel as [|fuel IH]; intros uuid; simpl.
  - intros _ m Hm. lia.
  - destruct (uuid_found users (uuid + 1)) eqn:Hfound; [|done].
    intros H m Hm. destruct (decide (m = uuid + 1)) as [->|]; [done|].
    apply (IH _ H). lia.
Qed.

(** Termination: among [length users + 1] candidates one is free, so
    that many iterations of the [while] loop always produce a result. *)
Lemma generateUUID_loop_total users :
  is_Some (generateUUID_loop users (S (length users)) 0).
Proof.
  destruct (generateUUID_loop users (S (length users)) 0) eqn:Hloop; [eauto|].
  exfalso.
  pose proof (generateUUID_loop_None _ _ _ Hloop) as Hall.
  set (ids := (fun u => parseIntV (field0 u)) <$> users).
  set (candidates := (fun k => Some (Z.of_nat k)) <$> seq 1 (S (length users))).
  assert (candidates ⊆+ ids) as Hsub.
  { apply NoDup_submseteq.
    - apply NoDup_fmap_2; [|apply NoDup_seq].
      intros x y [= Hxy]. lia.
    - intros x Hx. apply list_elem_of_fmap in Hx as (k & -> & Hk).
      apply elem_of_seq in Hk. apply uuid_found_elem_of, Hall. lia. }
  apply submseteq_length in Hsub.
  unfold candidates, ids in Hsub. rewrite !length_fmap, length_seq in Hsub. lia.
Qed.

(** [generateUUID] returns the smallest positive integer that no record
    of the authoritative list carries. *)
Lemma generateUUID_smallest st :
  1 <= generateUUID st
  /\ holds st (userList st) (Some (generateUUID st)) = false
  /\ forall m, 1 <= m < generateUUID st -> holds st (userList st) (Some m) = true.
Proof.
  unfold generateUUID.
  destruct (generateUUID_loop_total (contents st (userList st))) as [n Hn].
  rewrite Hn. change (default 0 (Some n)) with n.
  apply generateUUID_loop_Some in Hn as (Hrange & Hfree & Hbelow).
  unfold holds. rewrite uuid_found_existsb in Hfree.
  split; [lia|]. split; [done|].
  intros m Hm. rewrite <- uuid_found_existsb. apply Hbelow. lia.
Qed.

End Allocation.

(** ** Well-formedness is preserved *)

Section WellFormed.

Lemma wf_intro st :
  (userList st < length (arrays st))%nat ->
  (tempUserList st < length (arrays st))%nat ->
  Forall (Forall (fun l => (l < length (heap st))%nat)) (arrays st) ->
  wf st.
Proof. intros. by apply wf_alt. Qed.

Lemma wf_new_record u st : wf st -> wf (snd (new_record u st)).
Proof.
  intros (H1 & H2 & H3)%wf_alt. apply wf_intro; simpl; [done..|].
  eapply Forall_impl; [exact H3|]. intros ls Hls.
  eapply Forall_impl; [exact Hls|]. intros l Hl. simpl in Hl.
  rewrite length_app. lia.
Qed.

Lemma wf_push a l st :
  wf st -> (l < length (heap st))%nat -> wf (push a l st).
Proof.
  intros (H1 & H2 & H3)%wf_alt Hl. apply wf_intro; simpl.
  - by rewrite length_alter.
  - by rewrite length_alter.
  - apply Forall_alter; [done|]. intros ls _ Hls.
    apply Forall_app. split; [done|]. by apply Forall_singleton.
Qed.

Lemma wf_sort_array a st : wf st -> wf (sort_array a st).
Proof.
  intros (H1 & H2 & H3)%wf_alt. apply wf_intro; simpl.
  - by rewrite length_alter.
  - by rewrite length_alter.
  - apply Forall_alter; [done|]. intros ls _ Hls. by rewrite sort_perm.
Qed.

Lemma wf_write_color l v st : wf st -> wf (write_color l v st).
Proof.
  intros (H1 & H2 & H3)%wf_alt. apply wf_intro; simpl; [done..|].
  eapply Forall_impl; [exact H3|]. intros ls Hls.
  eapply Forall_impl; [exact Hls|]. intros l' Hl'. simpl in Hl'.
  by rewrite length_alter.
Qed.

Lemma wf_set_clients c st : wf st -> wf (set_clients c st).
Proof. done. Qed.

Lemma wf_set_canvasState c st : wf st -> wf (set_canvasState c st).
Proof. done. Qed.

Lemma wf_set_userListStale b st : wf st -> wf (set_userListStale b st).
Proof. done. Qed.

Lemma wf_addUser st : wf st -> wf (snd (addUser st)).
Proof.
  intros Hwf. unfold addUser. simpl.
  apply wf_sort_array. apply wf_push; [apply wf_push|]; simpl.
  - by apply (wf_new_record [VNum (generateUUID st); VStr "black"]).
  - rewrite length_app. simpl. lia.
  - rewrite length_app. simpl. lia.
Qed.

Lemma wf_sendKeepAlive st : wf st -> wf (fst (sendKeepAlive st)).
Proof.
  intros (H1 & H2 & H3)%wf_alt. apply wf_intro; simpl.
  - rewrite length_app. lia.
  - rewrite length_app. simpl. lia.
  - apply Forall_app. split; [done|]. by repeat constructor.
Qed.

Lemma wf_keepAliveTimeout st : wf st -> wf (fst (keepAliveTimeout st)).
Proof.
  intros Hwf. apply (wf_sort_array (tempUserList st)) in Hwf.
  apply wf_alt in Hwf as (H1 & H2 & H3). by apply wf_intro.
Qed.

End WellFormed.

(** ** The effect of [addUser] *)

Section AddUser.
Variable st : state.
Hypothesis Hwf : wf st.

Lemma addUser_uuid : fst (addUser st) = generateUUID st.
Proof. reflexivity. Qed.

Lemma addUser_frame :
  userList (snd (addUser st)) = userList st
  /\ tempUserList (snd (addUser st)) = tempUserList st
  /\ canvasState (snd (addUser st)) = canvasState st
  /\ userListStale (snd (addUser st)) = userListStale st
  /\ clients (snd (addUser st)) = clients st
  /\ heap (snd (addUser st)) = heap st ++ [[VNum (generateUUID st); VStr "black"]].
Proof. repeat split. Qed.

Lemma addUser_deref_new :
  deref (snd (addUser st)) (length (heap st))
    = [VNum (generateUUID st); VStr "black"].
Proof.
  unfold deref. simpl. by rewrite list_lookup_middle.
Qed.

Lemma addUser_deref_old l :
  (l < length (heap st))%nat -> deref (snd (addUser st)) l = deref st l.
Proof.
  intros Hl. unfold deref. simpl. by rewrite lookup_app_l.
Qed.

(** With two distinct arrays each list receives the new record once. *)
Lemma addUser_distinct :
  userList st <> tempUserList st ->
  elems (snd (addUser st)) (userList st) ≡ₚ elems st (userList st) ++ [length (heap st)]
  /\ elems (snd (addUser st)) (tempUserList st)
     = elems st (tempUserList st) ++ [length (heap st)].
Proof.
  intros Hne. apply wf_alt in Hwf as (H1 & H2 & _).
  unfold addUser. simpl. split.
  - rewrite elems_sort_array_perm.
    rewrite elems_push_ne by (simpl; congruence).
    by rewrite elems_push_eq.
  - rewrite elems_sort_array_ne by (simpl; congruence).
    rewrite elems_push_eq by (simpl; by rewrite length_alter).
    by rewrite elems_push_ne.
Qed.

(** When both variables name one array, that array receives the new
    record twice. *)
Lemma addUser_shared :
  userList st = tempUserList st ->
  elems (snd (addUser st)) (userList st)
    ≡ₚ elems st (userList st) ++ [length (heap st); length (heap st)].
Proof.
  intros Heq. apply wf_alt in Hwf as (H1 & H2 & _).
  unfold addUser. simpl.
  rewrite elems_sort_array_perm. simpl. rewrite <- Heq.
  rewrite elems_push_eq by (simpl; by rewrite length_alter).
  rewrite elems_push_eq by done.
  by rewrite <- app_assoc.
Qed.

End AddUser.

(** Once a sweep has committed, [userList] and [tempUserList] name the same
    array, and [addUser] pushes the new record onto it twice: the
    authoritative list grows by two entries carrying the new identity. *)
Lemma addUser_shared_grows_by_two (st : state) :
  wf st ->
  userList st = tempUserList st ->
  elems (snd (addUser st)) (userList (snd (addUser st)))
    ≡ₚ elems st (userList st) ++ [length (heap st); length (heap st)]
  /\ deref (snd (addUser st)) (length (heap st))
      = [VNum (fst (addUser st)); VStr "black"]
  /\ length (contents (snd (addUser st)) (userList (snd (addUser st))))
      = (length (contents st (userList st)) + 2)%nat.
Proof.
  intros Hwf Heq.
  pose proof (addUser_shared st Hwf Heq) as Hperm.
  split; [exact Hperm|]. split; [by apply addUser_deref_new|].
  unfold contents. rewrite !length_fmap.
  change (userList (snd (addUser st))) with (userList st).
  rewrite Hperm, length_app. simpl. lia.
Qed.

(** With two distinct arrays the authoritative list grows by one entry. *)
Lemma addUser_distinct_grows_by_one (st : state) :
  wf st ->
  userList st <> tempUserList st ->
  length (contents (snd (addUser st)) (userList (snd (addUser st))))
    = (length (contents st (userList st)) + 1)%nat.
Proof.
  intros Hwf Hne. destruct (addUser_distinct st Hwf Hne) as [Hperm _].
  unfold contents. rewrite !length_fmap.
  change (userList (snd (addUser st))) with (userList st).
  rewrite Hperm, length_app. simpl. lia.
Qed.

(** C6 (code defect).  [addUser] does not always add one record under an
    identity nobody holds.  After a sweep has committed, both list
    variables name one array and the new record is pushed onto it twice:
    on a server whose first sweep has committed, the first connection
    takes the authoritative list from empty to two entries with identity
    1.  And [generateUUID] scans the authoritative list only: when client
    0 missed the first sweep and answers the second, the provisional list
    holds its identity 1, and a connection accepted at that moment is
    given identity 1 as well. *)
Theorem addUser_breaks_allocation_contract :
  let committed := res_state (run [Interval; Timeout] init) in
  let answered :=
    res_state (run [Connection 0%nat; Interval; Timeout; Interval;
                    Message 0%nat (InMsg "pong" (Some "1,#ff0000"))] init) in
  userList committed = tempUserList committed
  /\ contents committed (userList committed) = []
  /\ fst (addUser committed) = 1
  /\ contents (snd (addUser committed)) (userList (snd (addUser committed)))
      = [[VNum 1; VStr "black"]; [VNum 1; VStr "black"]]
  /\ contents answered (tempUserList answered) = [[VStr "1"; VStr "#ff0000"]]
  /\ holds answered (tempUserList answered) (Some 1) = true
  /\ fst (addUser answered) = 1.
Proof.
  cbv zeta. repeat split.
Qed.

(** In every state in which both variables name one array, as after each
    commit, accepting a connection leaves two entries with the same
    identity in the authoritative list. *)
Lemma connection_after_commit_duplicates (ws : conn) (st : state) :
  wf st ->
  userList st = tempUserList st ->
  ~ NoDup (identities (fst (onConnection ws st)) (userList (fst (onConnection ws st)))).
Proof.
  intros Hwf Heq.
  set (stc := set_clients (clients st ++ [ws]) st).
  change (fst (onConnection ws st)) with (snd (addUser stc)).
  change (userList (snd (addUser stc))) with (userList stc).
  unfold identities, contents.
  rewrite (addUser_shared stc Hwf Heq), !fmap_app.
  intros Hnodup. apply NoDup_app in Hnodup as (_ & _ & Hnodup).
  apply NoDup_cons in Hnodup as [Hx _]. apply Hx. by left.
Qed.

(** C8 (code defect).  The authoritative list does not keep identities
    unique.  A connection accepted after a sweep has committed is pushed
    twice onto the one array behind both lists; and a [pong] carrying the
    sentinel [-1] adds the record made by [addUser] and then the reply
    itself under the same new identity. *)
Theorem userList_identities_not_unique :
  let after_commit :=
    res_state (run [Connection 0%nat; Interval;
                    Message 0%nat (InMsg "pong" (Some "1,#ff0000"));
                    Timeout; Connection 1%nat] init) in
  let sentinel :=
    res_state (run [Connection 0%nat; Interval;
                    Message 1%nat (InMsg "pong" (Some "-1,#00ff00"));
                    Timeout] init) in
  identities after_commit (userList after_commit) = [Some 1; Some 2; Some 2]
  /\ ~ NoDup (identities after_commit (userList after_commit))
  /\ identities sentinel (userList sentinel) = [Some 2; Some 2]
  /\ ~ NoDup (identities sentinel (userList sentinel)).
Proof.
  cbv zeta.
  assert (forall (x : option Z) l, ~ NoDup (l ++ [x; x])) as Hdup.
  { intros x l H. apply NoDup_app in H as (_ & _ & H).
    apply NoDup_cons in H as [Hx _]. apply Hx. by left. }
  repeat split.
  - vm_compute. apply (Hdup (Some 2) [Some 1]).
  - vm_compute. apply (Hdup (Some 2) []).
Qed.

(** ** The sweep: [sendKeepAlive] and its timeout *)

Section Sweep.

Lemma sendKeepAlive_temp_empty st :
  contents (fst (sendKeepAlive st)) (tempUserList (fst (sendKeepAlive st))) = [].
Proof.
  unfold contents, elems. simpl. by rewrite list_lookup_middle.
Qed.

Lemma sendKeepAlive_userList st :
  (userList st < length (arrays st))%nat ->
  userList (fst (sendKeepAlive st)) = userList st
  /\ elems (fst (sendKeepAlive st)) (userList st) = elems st (userList st)
  /\ contents (fst (sendKeepAlive st)) (userList st) = contents st (userList st).
Proof.
  intros Hu. split; [done|].
  assert (elems (fst (sendKeepAlive st)) (userList st) = elems st (userList st)) as He.
  { unfold elems. simpl. by rewrite lookup_app_l. }
  split; [done|]. unfold contents. by rewrite He.
Qed.


Lemma sendKeepAlive_sent st :
  snd (sendKeepAlive st)
    = (fun client => (client, OutMsg "ping" None None)) <$> clients st.
Proof. reflexivity. Qed.

Lemma keepAliveTimeout_userList st :
  contents (fst (keepAliveTimeout st)) (userList (fst (keepAliveTimeout st)))
    = sort userSortFunc (contents st (tempUserList st)).
Proof. apply (contents_sort_array_eq (tempUserList st) st). Qed.

Lemma keepAliveTimeout_sent st :
  let st' := fst (keepAliveTimeout st) in
  snd (keepAliveTimeout st)
    = broadcast "announceConnectedUsers" (Some (joinUsers st' (userList st'))) st'.
Proof. reflexivity. Qed.

End Sweep.

(** What the timeout does when the identities collected are safe integers:
    the authoritative list becomes the provisional list in ascending order
    of identity, it is broadcast, and the stale flag is cleared.  The
    provisional list is emptied by the next [sendKeepAlive], which leaves
    the authoritative list as committed. *)
Lemma keepAliveTimeout_commits_sorted (st : state) :
  wf st ->
  safe_identities (contents st (tempUserList st)) ->
  let st1 := fst (keepAliveTimeout st) in
  let st2 := fst (sendKeepAlive st1) in
  contents st1 (userList st1) = sort userSortFunc (contents st (tempUserList st))
  /\ contents st1 (userList st1) ≡ₚ contents st (tempUserList st)
  /\ StronglySorted identity_le (contents st1 (userList st1))
  /\ userListStale st1 = false
  /\ snd (keepAliveTimeout st)
       = broadcast "announceConnectedUsers" (Some (joinUsers st1 (userList st1))) st1
  /\ contents st2 (tempUserList st2) = []
  /\ contents st2 (userList st2) = contents st1 (userList st1).
Proof.
  intros Hwf Hsafe. cbv zeta.
  pose proof (keepAliveTimeout_userList st) as Hsorted.
  split; [exact Hsorted|].
  split; [rewrite Hsorted; apply sort_perm|].
  split; [rewrite Hsorted; by apply sort_sorted, safe_identities_numeric|].
  split; [done|]. split; [done|].
  split; [apply sendKeepAlive_temp_empty|].
  apply wf_keepAliveTimeout, wf_alt in Hwf as (Hu & _ & _).
  destruct (sendKeepAlive_userList _ Hu) as (Hvar & _ & Hsame).
  by rewrite Hvar.
Qed.

Example sweep_of_two_replies :
  let st := res_state (run [Connection 0%nat; Connection 1%nat; Interval;
                            Message 1%nat (InMsg "pong" (Some "2,#00ff00"));
                            Message 0%nat (InMsg "pong" (Some "1,#ff0000"))] init) in
  contents st (tempUserList st) = [[VStr "2"; VStr "#00ff00"]; [VStr "1"; VStr "#ff0000"]]
  /\ snd (keepAliveTimeout st)
     = [(0%nat, OutMsg "announceConnectedUsers" (Some (PStr "1,#ff0000;2,#00ff00")) None);
        (1%nat, OutMsg "announceConnectedUsers" (Some (PStr "1,#ff0000;2,#00ff00")) None)].
Proof. split; reflexivity. Qed.

(** ** Colour changes during a sweep *)

Section ColorChange.

Lemma contents_write_color_unshared u v a st :
  u ∉ elems st a -> contents (write_color u v st) a = contents st a.
Proof.
  intros Hu. unfold contents.
  change (elems (write_color u v st) a) with (elems st a).
  apply list_fmap_ext. intros i l Hl.
  apply deref_write_color_ne. intros ->.
  apply Hu. by eapply list_elem_of_lookup_2.
Qed.

(** While the list is stale, a colour change that finds its record in the
    provisional list writes that record and sends nothing; the records
    the authoritative list shows are unchanged provided the record found
    is not also referenced from the authoritative list. *)
Lemma updateColor_stale_unshared ws d id color st u :
  split "," d = [id; color] ->
  userListStale st = true ->
  find_user (fun r => num_eq (parseInt id) (parseIntV (field0 r)))
            (tempUserList st) st = Some u ->
  u ∉ elems st (userList st) ->
  let r := onMessage ws (InMsg "updateColor" (Some d)) st in
  res_state r = write_color u (VStr color) st
  /\ contents (res_state r) (userList (res_state r)) = contents st (userList st)
  /\ res_sent r = []
  /\ res_completion r = Normal.
Proof.
  intros Hd Hstale Hfind Hu. cbv zeta.
  unfold onMessage, dispatch, updateColor. simpl.
  rewrite Hd. simpl. rewrite Hstale, Hfind. simpl.
  repeat split. by apply contents_write_color_unshared.
Qed.

End ColorChange.

(** C9 (code defect).  [addUser] pushes one and the same record object onto
    both lists, so for a user allocated during the sweep the record that a
    colour change finds in the provisional list is the record of the
    authoritative list: the stale branch changes what the authoritative
    list shows, although it sends no user list. *)
Theorem updateColor_during_sweep_writes_shared_record :
  let st := res_state (run [Interval; Connection 0%nat;
                            Message 0%nat (InMsg "userAccepted" (Some "1,#ff0000"))]
                           init) in
  let r := onMessage 0%nat (InMsg "updateColor" (Some "1,#00ff00")) st in
  userListStale st = true
  /\ userList st <> tempUserList st
  /\ holds st (tempUserList st) (Some 1) = true
  /\ contents st (userList st) = [[VNum 1; VStr "#ff0000"]]
  /\ contents (res_state r) (userList (res_state r)) = [[VNum 1; VStr "#00ff00"]]
  /\ contents (res_state r) (tempUserList (res_state r)) = [[VNum 1; VStr "#00ff00"]]
  /\ res_sent r = []
  /\ res_completion r = Normal.
Proof.
  cbv zeta. repeat split. vm_compute. discriminate.
Qed.

(** ** What handlers preserve *)

Section Grows.

Lemma grows_refl st : grows st st.
Proof. by repeat split. Qed.

Lemma grows_trans st1 st2 st3 : grows st1 st2 -> grows st2 st3 -> grows st1 st3.
Proof.
  intros (Ht & He & Hl & Hf) (Ht' & He' & Hl' & Hf').
  split; [congruence|]. split.
  - intros l Hin. apply He in Hin. rewrite Ht in He'. by apply He'.
  - split; [lia|]. intros l Hlt. rewrite Hf' by lia. by apply Hf.
Qed.

Lemma grows_new_record u st : grows st (snd (new_record u st)).
Proof.
  split; [done|]. split; [done|]. split.
  - simpl. rewrite length_app. lia.
  - intros l Hl. by rewrite deref_new_record_old.
Qed.

Lemma elem_of_elems_push a b l l' st :
  l ∈ elems st b -> l ∈ elems (push a l' st) b.
Proof.
  intros Hin. destruct (decide (a = b)) as [->|Hne].
  - destruct (decide (b < length (arrays st))%nat) as [Hb|Hb].
    + rewrite elems_push_eq by done. apply elem_of_app. by left.
    + unfold elems in Hin. rewrite lookup_ge_None_2 in Hin by lia.
      by apply elem_of_nil in Hin.
  - by rewrite elems_push_ne.
Qed.

Lemma grows_push a l st : grows st (push a l st).
Proof.
  repeat split; simpl; try done.
  intros l' Hin. by apply elem_of_elems_push.
Qed.

Lemma grows_sort_array a st : grows st (sort_array a st).
Proof.
  repeat split; simpl; try done.
  intros l Hin. by rewrite elems_sort_array_perm.
Qed.

Lemma grows_write_color l v st : grows st (write_color l v st).
Proof.
  repeat split; simpl; try done.
  - by rewrite length_alter.
  - intros l' _. apply field0_write_color.
Qed.

Lemma grows_addUser st : grows st (snd (addUser st)).
Proof.
  unfold addUser. simpl.
  eapply grows_trans; [apply (grows_new_record [VNum (generateUUID st); VStr "black"])|].
  eapply grows_trans; [apply grows_push|].
  eapply grows_trans; [apply grows_push|].
  apply grows_sort_array.
Qed.

Lemma grows_onConnection ws st : grows st (fst (onConnection ws st)).
Proof. apply (grows_addUser (set_clients (clients st ++ [ws]) st)). Qed.

Lemma grows_keepAliveTimeout st : grows st (fst (keepAliveTimeout st)).
Proof. apply (grows_sort_array (tempUserList st) st). Qed.

Lemma grows_userAccepted ws d st :
  forall st' out valid, userAccepted ws d st = Done st' out valid -> grows st st'.
Proof.
  intros st' out valid. unfold userAccepted.
  destruct (find_user _ _ _); intros [= <- _ _];
    [apply grows_write_color | apply grows_refl].
Qed.

Lemma grows_pong ws d st :
  forall st' out valid, pong ws d st = Done st' out valid -> grows st st'.
Proof.
  intros st' out valid. unfold pong.
  destruct (num_eq _ _); simpl; intros [= <- _ _].
  - eapply grows_trans; [apply grows_addUser|].
    eapply grows_trans; [apply grows_new_record|]. apply grows_push.
  - eapply grows_trans; [apply grows_new_record|]. apply grows_push.
Qed.

Lemma grows_paint d st :
  forall st' out valid, paint d st = Done st' out valid -> grows st st'.
Proof.
  intros st' out valid. unfold paint.
  destruct (paint_loop _ _). intros [= <- _ _]. by repeat split.
Qed.

Lemma grows_updateColor d st :
  forall st' out valid, updateColor d st = Done st' out valid -> grows st st'.
Proof.
  intros st' out valid. unfold updateColor.
  destruct (_ =? _)%nat; [|intros [= <- _ _]; apply grows_refl].
  destruct (userListStale st); destruct (find_user _ _ _);
    intros [= <- _ _] || intros [=]; apply grows_write_color.
Qed.

(** An exception leaves the state as it was. *)
Lemma dispatch_Thrown ws message st st' out :
  dispatch ws message st = Thrown st' out -> st' = st /\ out = [].
Proof.
  unfold dispatch.
  destruct (String.eqb _ "userAccepted").
  { destruct (data message); [|by intros [= <- <-]].
    unfold userAccepted. by destruct (find_user _ _ _). }
  destruct (String.eqb _ "pong").
  { destruct (data message); [|by intros [= <- <-]].
    unfold pong. by destruct (num_eq _ _). }
  destruct (String.eqb _ "paint").
  { destruct (data message); [|by intros [= <- <-]].
    unfold paint. by destruct (paint_loop _ _). }
  destruct (String.eqb _ "updateColor"); [|done].
  destruct (data message); [|by intros [= <- <-]].
  unfold updateColor. destruct (_ =? _)%nat; [|done].
  destruct (userListStale st); destruct (find_user _ _ _);
    (done || by intros [= <- <-]).
Qed.

Lemma grows_onMessage ws message st : grows st (res_state (onMessage ws message st)).
Proof.
  unfold onMessage.
  destruct (dispatch ws message st) as [st' out valid|st' out] eqn:Hd; simpl.
  - revert Hd. unfold dispatch.
    destruct (String.eqb _ "userAccepted").
    { destruct (data message); [apply grows_userAccepted | done]. }
    destruct (String.eqb _ "pong").
    { destruct (data message); [apply grows_pong | done]. }
    destruct (String.eqb _ "paint").
    { destruct (data message); [apply grows_paint | done]. }
    destruct (String.eqb _ "updateColor").
    { destruct (data message); [apply grows_updateColor | done]. }
    intros [= <- _ _]. apply grows_refl.
  - apply dispatch_Thrown in Hd as [-> _]. apply grows_refl.
Qed.

End Grows.

Section WellFormedRuns.

Lemma wf_onConnection ws st : wf st -> wf (fst (onConnection ws st)).
Proof. intros Hwf. by apply (wf_addUser (set_clients (clients st ++ [ws]) st)). Qed.

Lemma wf_push_new a u st : wf st -> wf (push a (length (heap st)) (snd (new_record u st))).
Proof.
  intros Hwf. apply wf_push; [by apply wf_new_record|].
  simpl. rewrite length_app. simpl. lia.
Qed.

Lemma wf_dispatch ws message st st' out valid :
  wf st -> dispatch ws message st = Done st' out valid -> wf st'.
Proof.
  intros Hwf. unfold dispatch.
  destruct (String.eqb _ "userAccepted").
  { destruct (data message); [|done]. unfold userAccepted.
    destruct (find_user _ _ _); intros [= <- _ _]; [by apply wf_write_color | done]. }
  destruct (String.eqb _ "pong").
  { destruct (data message); [|done]. unfold pong.
    destruct (num_eq _ _); simpl; intros [= <- _ _].
    - by apply (wf_push_new _ _ (snd (addUser st))), wf_addUser.
    - by apply wf_push_new. }
  destruct (String.eqb _ "paint").
  { destruct (data message); [|done]. unfold paint.
    destruct (paint_loop _ _). by intros [= <- _ _]. }
  destruct (String.eqb _ "updateColor"); [|by intros [= <- _ _]].
  destruct (data message); [|done]. unfold updateColor.
  destruct (_ =? _)%nat; [|by intros [= <- _ _]].
  destruct (userListStale st); destruct (find_user _ _ _);
    intros [= <- _ _] || intros [=]; by apply wf_write_color.
Qed.

Lemma wf_onMessage ws message st : wf st -> wf (res_state (onMessage ws message st)).
Proof.
  intros Hwf. unfold onMessage.
  destruct (dispatch ws message st) as [st' out valid|st' out] eqn:Hd; simpl.
  - by eapply wf_dispatch.
  - by apply dispatch_Thrown in Hd as [-> _].
Qed.

Lemma wf_step ev st : wf st -> wf (res_state (step ev st)).
Proof.
  intros Hwf. destruct ev as [ws|ws message|ws| |]; simpl.
  - by apply wf_onConnection.
  - by apply wf_onMessage.
  - by apply (wf_sendKeepAlive (set_clients _ st)).
  - by apply wf_sendKeepAlive.
  - by apply wf_keepAliveTimeout.
Qed.

(** Every state the server reaches is well formed. *)
Lemma wf_run evs st : wf st -> wf (res_state (run evs st)).
Proof.
  revert st. induction evs as [|ev rest IH]; intros st Hwf; simpl; [done|].
  pose proof (wf_step ev st Hwf) as Hstep.
  destruct (res_completion (step ev st)); simpl; [by apply IH | done].
Qed.

End WellFormedRuns.

(** ** Users allocated during a sweep *)

Section SameSweep.

Lemma grows_step ev st : same_sweep ev = true -> grows st (res_state (step ev st)).
Proof.
  destruct ev as [ws|ws message|ws| |]; simpl; try done; intros _.
  - apply grows_onConnection.
  - apply grows_onMessage.
  - apply grows_keepAliveTimeout.
Qed.

Lemma grows_run evs st :
  forallb same_sweep evs = true -> grows st (res_state (run evs st)).
Proof.
  revert st. induction evs as [|ev rest IH]; intros st Hevs; simpl.
  - apply grows_refl.
  - simpl in Hevs. apply andb_true_iff in Hevs as [Hev Hrest].
    pose proof (grows_step ev st Hev) as Hstep.
    destruct (res_completion (step ev st)); simpl; [|done].
    eapply grows_trans; [exact Hstep | by apply IH].
Qed.

(** When a run ending with a timeout completes, both variables name the
    array that was just sorted. *)
Lemma run_ends_with_Timeout evs st :
  res_completion (run (evs ++ [Timeout]) st) = Normal ->
  userList (res_state (run (evs ++ [Timeout]) st))
    = tempUserList (res_state (run (evs ++ [Timeout]) st)).
Proof.
  revert st. induction evs as [|ev rest IH]; intros st; simpl; [done|].
  destruct (res_completion (step ev st)) eqn:Hc; simpl; [apply IH|].
  by rewrite Hc.
Qed.

(** [addUser] leaves the new record in the provisional list, whether or
    not the two variables name the same array. *)
Lemma addUser_in_temp st :
  wf st ->
  length (heap st) ∈ elems (snd (addUser st)) (tempUserList (snd (addUser st))).
Proof.
  intros Hwf. change (tempUserList (snd (addUser st))) with (tempUserList st).
  destruct (decide (userList st = tempUserList st)) as [Heq|Hne].
  - rewrite <- Heq, (addUser_shared st Hwf Heq).
    apply elem_of_app. right. by left.
  - destruct (addUser_distinct st Hwf Hne) as [_ ->].
    apply elem_of_app. right. by left.
Qed.

End SameSweep.

Section Allocated.

(** What an allocating event does: it tells the connection its new
    identity and leaves a record with that identity in the provisional
    list. *)
Lemma allocation_step ev st :
  wf st ->
  allocates ev = true ->
  let st1 := res_state (step ev st) in
  res_completion (step ev st) = Normal
  /\ (exists ws, (ws, announceUUID (generateUUID st)) ∈ res_sent (step ev st))
  /\ exists l, l ∈ elems st1 (tempUserList st1)
               /\ (l < length (heap st1))%nat
               /\ field0 (deref st1 l) = VNum (generateUUID st).
Proof.
  intros Hwf Halloc. cbv zeta.
  destruct ev as [ws|ws [tag [d|]]|ws| |]; simpl in Halloc; try done.
  - (* a new connection *)
    set (stc := set_clients (clients st ++ [ws]) st).
    assert (wf stc) as Hwfc by done.
    split; [done|]. split.
    { exists ws. simpl. by left. }
    exists (length (heap stc)). split; [by apply addUser_in_temp|].
    split.
    + simpl. rewrite length_app. simpl. lia.
    + change (res_state (step (Connection ws) st)) with (snd (addUser stc)).
      by rewrite addUser_deref_new.
  - (* a reply carrying the sentinel *)
    apply andb_true_iff in Halloc as [Htag Hsentinel].
    apply String.eqb_eq in Htag. subst tag.
    simpl. unfold onMessage, dispatch. simpl. unfold pong. rewrite Hsentinel.
    simpl. split; [done|]. split.
    { exists ws. by left. }
    set (sta := snd (addUser st)).
    set (user := VNum (generateUUID st) :: tail (VStr <$> split "," d)).
    assert (grows sta (push (tempUserList sta) (length (heap sta))
                            (snd (new_record user sta)))) as (_ & Hkeep & _ & Hfield).
    { eapply grows_trans; [apply grows_new_record | apply grows_push]. }
    exists (length (heap st)). split; [|split].
    + apply Hkeep. by apply addUser_in_temp.
    + simpl. rewrite !length_app. simpl. lia.
    + rewrite Hfield.
      * unfold sta. by rewrite addUser_deref_new.
      * unfold sta. simpl. rewrite length_app. simpl. lia.
Qed.

End Allocated.

(** The claim C10 as worded fails when a second sweep starts before the
    first one commits: a closed connection calls [sendKeepAlive], which
    replaces the provisional list by an empty one, so the user allocated
    during the first sweep is missing from the list its timeout commits. *)
Lemma overlapping_sweep_drops_allocated_user :
  let st := res_state (run [Connection 0%nat; Connection 1%nat; Interval] init) in
  let ev := Connection 2%nat in
  let st1 := res_state (step ev st) in
  let r := run [Close 0%nat; Timeout] st1 in
  userListStale st = true
  /\ allocates ev = true
  /\ res_sent (step ev st) = [(2%nat, announceUUID 3)]
  /\ VNum 3 ∈ field0 <$> contents st1 (tempUserList st1)
  /\ res_completion r = Normal
  /\ ~ VNum 3 ∈ field0 <$> contents (res_state r) (userList (res_state r)).
Proof.
  cbv zeta. repeat split.
  - vm_compute. by apply list_elem_of_singleton.
  - vm_compute. apply not_elem_of_nil.
Qed.

(** C10 (amended).  A user allocated while a sweep is in progress, by a
    new connection or by a liveness reply carrying the sentinel [-1], is in
    the provisional list from the moment of allocation; whatever
    connections and frames follow, provided no new sweep is started before
    the commit, the timeout that commits the sweep puts a record with that
    identity into the authoritative list, without any reply from that
    connection being needed. *)
Theorem allocated_during_sweep_survives
    (st : state) (ev : event) (evs : list event) :
  wf st ->
  userListStale st = true ->
  allocates ev = true ->
  forallb same_sweep evs = true ->
  let uuid := generateUUID st in
  let st1 := res_state (step ev st) in
  let r := run (evs ++ [Timeout]) st1 in
  res_completion r = Normal ->
  (exists ws, (ws, announceUUID uuid) ∈ res_sent (step ev st))
  /\ VNum uuid ∈ field0 <$> contents st1 (tempUserList st1)
  /\ VNum uuid ∈ field0 <$> contents (res_state r) (userList (res_state r)).
Proof.
  intros Hwf _ Halloc Hevs. cbv zeta. intros Hnormal.
  destruct (allocation_step ev st Hwf Halloc) as (_ & Hsent & l & Hin & Hvalid & Hid).
  split; [exact Hsent|]. split.
  - apply list_elem_of_fmap. exists (deref (res_state (step ev st)) l).
    split; [done|]. unfold contents. apply list_elem_of_fmap. eauto.
  - assert (forallb same_sweep (evs ++ [Timeout]) = true) as Hall.
    { rewrite forallb_app, Hevs. done. }
    destruct (grows_run _ (res_state (step ev st)) Hall) as (Htemp & Hkeep & _ & Hfield).
    rewrite (run_ends_with_Timeout _ _ Hnormal), Htemp.
    apply list_elem_of_fmap.
    exists (deref (res_state (run (evs ++ [Timeout]) (res_state (step ev st)))) l).
    split; [by rewrite Hfield|].
    unfold contents. apply list_elem_of_fmap. exists l. split; [done|]. by apply Hkeep.
Qed.

Lemma allocated_during_sweep_survives_witness :
  let st := res_state (run [Connection 0%nat; Interval] init) in
  let ev := Connection 1%nat in
  let evs := [Message 1%nat (InMsg "userAccepted" (Some "2,#0000ff"));
              Message 0%nat (InMsg "pong" (Some "1,#ff0000"))] in
  let st1 := res_state (step ev st) in
  let r := run (evs ++ [Timeout]) st1 in
  (exists ws, (ws, announceUUID 2) ∈ res_sent (step ev st))
  /\ VNum 2 ∈ field0 <$> contents st1 (tempUserList st1)
  /\ VNum 2 ∈ field0 <$> contents (res_state r) (userList (res_state r)).
Proof.
  apply (allocated_during_sweep_survives
           (res_state (run [Connection 0%nat; Interval] init))
           (Connection 1%nat)
           [Message 1%nat (InMsg "userAccepted" (Some "2,#0000ff"));
            Message 0%nat (InMsg "pong" (Some "1,#ff0000"))]);
    reflexivity.
Defined.

(** ** What a sweep collects *)

Section Collected.










End Collected.




Example sweep_of_replies_and_connection :
  let st := res_state (run [Connection 0%nat; Connection 1%nat] init) in
  let evs := [Message 1%nat (InMsg "pong" (Some "2,#00ff00"));
              Connection 2%nat;
              Message 0%nat (InMsg "pong" (Some "1,#ff0000"))] in
  let st2 := res_state (run evs (fst (sendKeepAlive st))) in
  received 0%nat (snd (keepAliveTimeout st2))
    = [OutMsg "announceConnectedUsers" (Some (PStr "1,#ff0000;2,#00ff00;3,black")) None].
Proof. reflexivity. Qed.

(** * Further properties of the server and of the client *)

(** ** Splitting and joining *)

Section SplitJoin.
Variable sep : ascii.

Lemma split_nonempty s : split sep s <> [].
Proof.
  destruct s as [|c r]; simpl; [done|].
  destruct (Ascii.eqb c sep); [done|]. by destruct (split sep r).
Qed.

Lemma split_cons_other c r :
  Ascii.eqb c sep = false ->
  exists h t, split sep r = h :: t /\ split sep (String c r) = String c h :: t.
Proof.
  intros Hc. simpl. rewrite Hc.
  destruct (split sep r) as [|h t] eqn:Hr; [by apply split_nonempty in Hr|].
  eauto.
Qed.

Lemma contains_append c a b : contains c (a +:+ b) = contains c a || contains c b.
Proof.
  induction a as [|x a IH]; simpl; [done|]. by rewrite IH, orb_assoc.
Qed.

Lemma split_no_sep a : contains sep a = false -> split sep a = [a].
Proof.
  induction a as [|c a IH]; simpl; [done|].
  intros [Hc Ha]%orb_false_iff. rewrite Hc, (IH Ha). done.
Qed.

Lemma split_app_sep a b :
  contains sep a = false ->
  split sep (a +:+ String sep b) = a :: split sep b.
Proof.
  induction a as [|c a IH]; simpl.
  - intros _. by rewrite Ascii.eqb_refl.
  - intros [Hc Ha]%orb_false_iff. rewrite Hc, (IH Ha). done.
Qed.

(** Joining pieces that do not hold the separator and splitting again
    gives the pieces back. *)
Lemma split_join l :
  l <> [] ->
  Forall (fun x => contains sep x = false) l ->
  split sep (join (String sep "") l) = l.
Proof.
  intros Hne Hall. induction Hall as [|x l Hx Hall IH]; [done|].
  destruct l as [|y l].
  - simpl. by apply split_no_sep.
  - change (join (String sep "") (x :: y :: l))
      with (x +:+ String sep "" +:+ join (String sep "") (y :: l)).
    change (String sep "" +:+ join (String sep "") (y :: l))
      with (String sep (join (String sep "") (y :: l))).
    rewrite split_app_sep by done. f_equal. by apply IH.
Qed.

(** Splitting and joining again gives the string back. *)
Lemma join_split s : join (String sep "") (split sep s) = s.
Proof.
  induction s as [|c r IH]; [done|].
  simpl. destruct (Ascii.eqb_spec c sep) as [->|Hc].
  - destruct (split sep r) as [|h t] eqn:Hr; [by apply split_nonempty in Hr|].
    change (join (String sep "") ("" :: h :: t))
      with (String sep (join (String sep "") (h :: t))).
    by rewrite IH.
  - destruct (split sep r) as [|h t] eqn:Hr; [by apply split_nonempty in Hr|].
    destruct t as [|h' t].
    + simpl in *. by rewrite IH.
    + change (join (String sep "") (String c h :: h' :: t))
        with (String c (join (String sep "") (h :: h' :: t))).
      by rewrite IH.
Qed.

(** No piece of a split holds the separator. *)
Lemma split_pieces s : Forall (fun x => contains sep x = false) (split sep s).
Proof.
  induction s as [|c r IH]; simpl; [by repeat constructor|].
  destruct (Ascii.eqb c sep) eqn:Hc.
  - by constructor.
  - destruct (split sep r) as [|h t]; [by repeat constructor; simpl; rewrite Hc|].
    apply Forall_cons in IH as [Hh Ht]. constructor; [|done].
    simpl. by rewrite Hc, Hh.
Qed.

End SplitJoin.

(** ** Printing and reading integers *)

Section Numbers.

(** Reading the digits a decimal numeral prints, after an accumulator. *)
Lemma digits_string_of_uint_acc d acc seen :
  digits 10 (NilEmpty.string_of_uint d) (Z.pos acc) seen
    = (Z.pos (Pos.of_uint_acc d acc),
       seen || match d with Decimal.Nil => false | _ => true end, "").
Proof.
  revert acc seen.
  induction d as [|d IH|d IH|d IH|d IH|d IH|d IH|d IH|d IH|d IH|d IH];
    intros acc seen;
    [ simpl; by rewrite orb_false_r
    | cbn [NilEmpty.string_of_uint digits Pos.of_uint_acc];
      match goal with
      | |- context [digit 10 ?c] =>
          let v := eval vm_compute in (digit 10 c) in
          change (digit 10 c) with v; cbv beta iota
      end;
      match goal with
      | |- digits 10 _ ?z true = (Z.pos (Pos.of_uint_acc _ ?p), _, _) =>
          replace z with (Z.pos p) by lia
      end;
      rewrite IH, orb_true_r; by destruct d .. ].
Qed.

(** Reading a decimal numeral from the start: leading zeros do not
    count. *)
Lemma digits_string_of_uint d seen :
  digits 10 (NilEmpty.string_of_uint d) 0 seen
    = (Z.of_N (Pos.of_uint d),
       seen || match d with Decimal.Nil => false | _ => true end, "").
Proof.
  revert seen.
  induction d as [|d IH|d IH|d IH|d IH|d IH|d IH|d IH|d IH|d IH|d IH];
    intros seen;
    [ simpl; by rewrite orb_false_r
    | cbn [NilEmpty.string_of_uint digits Pos.of_uint];
      match goal with
      | |- context [digit 10 ?c] =>
          let v := eval vm_compute in (digit 10 c) in
          change (digit 10 c) with v; cbv beta iota
      end;
      change (0 * 10 + 0) with 0;
      rewrite ?IH, ?orb_true_r; try done .. ];
    match goal with
    | |- digits 10 _ ?z true = _ =>
        let v := eval vm_compute in z in change z with v
    end;
    rewrite digits_string_of_uint_acc; reflexivity.
Qed.

(** A printed numeral starts with a digit: there is no white space to
    skip, no sign and no [0x] prefix. *)
Lemma string_of_uint_plain d :
  strip_ws (NilEmpty.string_of_uint d) = NilEmpty.string_of_uint d
  /\ sign_of (NilEmpty.string_of_uint d) = (1, NilEmpty.string_of_uint d)
  /\ hex_prefix (NilEmpty.string_of_uint d) = None.
Proof.
  destruct d as [|d|d|d|d|d|d|d|d|d|d]; try (repeat split; reflexivity).
  destruct d; repeat split; reflexivity.
Qed.

Lemma parseInt_string_of_uint d :
  d <> Decimal.Nil ->
  parseInt (NilEmpty.string_of_uint d) = Some (Z.of_uint d).
Proof.
  intros Hd. unfold parseInt.
  destruct (string_of_uint_plain d) as (-> & -> & ->).
  rewrite digits_string_of_uint. simpl.
  destruct d; try done; unfold Z.of_uint; f_equal; lia.
Qed.

Lemma parseInt_minus_string_of_uint d :
  d <> Decimal.Nil ->
  parseInt (String "-" (NilEmpty.string_of_uint d)) = Some (- Z.of_uint d).
Proof.
  intros Hd. unfold parseInt.
  change (strip_ws (String "-" (NilEmpty.string_of_uint d)))
    with (String "-" (NilEmpty.string_of_uint d)).
  change (sign_of (String "-" (NilEmpty.string_of_uint d)))
    with (-1, NilEmpty.string_of_uint d).
  destruct (string_of_uint_plain d) as (_ & _ & ->).
  rewrite digits_string_of_uint. simpl.
  destruct d; try done; unfold Z.of_uint; f_equal; lia.
Qed.

Lemma to_uint_not_Nil p : Pos.to_uint p <> Decimal.Nil.
Proof.
  intros H. pose proof (DecimalZ.of_to (Z.pos p)) as Hround.
  simpl in Hround. rewrite H in Hround. discriminate.
Qed.

(** Reading back a printed integer gives the integer. *)
Lemma parseInt_numToString n : parseInt (numToString n) = Some n.
Proof.
  unfold numToString. pose proof (DecimalZ.of_to n) as Hround.
  destruct n as [|p|p]; [reflexivity| |].
  - simpl in *. rewrite parseInt_string_of_uint by apply to_uint_not_Nil.
    by rewrite Hround.
  - simpl in *. rewrite parseInt_minus_string_of_uint by apply to_uint_not_Nil.
    by rewrite Hround.
Qed.

Lemma toNumber_numToString n : toNumber (numToString n) = Some n.
Proof.
  unfold numToString. pose proof (DecimalZ.of_to n) as Hround.
  destruct n as [|p|p]; [reflexivity| |]; simpl in Hround; simpl Z.to_int;
    pose proof (to_uint_not_Nil p) as Hd;
    destruct (string_of_uint_plain (Pos.to_uint p)) as (Hws & Hsign & Hhex).
  - unfold NilEmpty.string_of_int, toNumber. rewrite Hws.
    destruct (NilEmpty.string_of_uint (Pos.to_uint p)) as [|c r] eqn:Hs.
    { by destruct (Pos.to_uint p). }
    rewrite Hhex, Hsign, <- Hs, digits_string_of_uint.
    destruct (Pos.to_uint p); try done; simpl; f_equal;
      unfold Z.of_uint in Hround; simpl in Hround; lia.
  - unfold NilEmpty.string_of_int, toNumber.
    change (strip_ws (String "-" (NilEmpty.string_of_uint (Pos.to_uint p))))
      with (String "-" (NilEmpty.string_of_uint (Pos.to_uint p))).
    cbv beta iota.
    change (hex_prefix (String "-" (NilEmpty.string_of_uint (Pos.to_uint p))))
      with (@None string).
    change (sign_of (String "-" (NilEmpty.string_of_uint (Pos.to_uint p))))
      with (-1, NilEmpty.string_of_uint (Pos.to_uint p)).
    cbv beta iota. rewrite digits_string_of_uint.
    destruct (Pos.to_uint p); try done; simpl; f_equal;
      unfold Z.of_uint in Hround; simpl in Hround; lia.
Qed.

(** A printed integer holds no separator. *)
Lemma contains_string_of_uint c d :
  contains c "0123456789" = false ->
  contains c (NilEmpty.string_of_uint d) = false.
Proof.
  intros Hc. simpl in Hc. rewrite !orb_false_iff in Hc.
  destruct Hc as (H0 & H1 & H2 & H3 & H4 & H5 & H6 & H7 & H8 & H9 & _).
  induction d; simpl; rewrite ?IHd; try done;
    by rewrite ?H0, ?H1, ?H2, ?H3, ?H4, ?H5, ?H6, ?H7, ?H8, ?H9.
Qed.

Lemma contains_numToString c n :
  contains c "-0123456789" = false -> contains c (numToString n) = false.
Proof.
  intros Hc. simpl in Hc. apply orb_false_iff in Hc as [Hminus Hc].
  unfold numToString.
  destruct (Z.to_int n) as [d|d]; simpl.
  - by apply contains_string_of_uint.
  - rewrite Hminus. by apply contains_string_of_uint.
Qed.

End Numbers.

(** ** What a frame can and cannot change *)

Section Frames.

Lemma accepted_prefix_ok entries :
  Forall (fun x => contains ";" x = false) entries ->
  forallb (fun entry => well_formed_entry entry && negb (contains ";" entry))
          (accepted_prefix entries) = true.
Proof.
  induction 1 as [|entry rest Hentry Hrest IH]; simpl; [done|].
  destruct (well_formed_entry entry) eqn:Hwf; simpl; [|done].
  by rewrite Hwf, Hentry, IH.
Qed.

Lemma accepted_prefix_all entries :
  forallb well_formed_entry entries = true -> accepted_prefix entries = entries.
Proof.
  induction entries as [|entry rest IH]; simpl; [done|].
  intros [-> Hrest]%andb_true_iff. by rewrite IH.
Qed.

(** The state a frame leaves behind: same connections, same flag, same
    arrays behind the two variables, and a history that has only gained
    entries of three fields. *)
Lemma onMessage_keeps ws message st :
  clients (res_state (onMessage ws message st)) = clients st
  /\ userListStale (res_state (onMessage ws message st)) = userListStale st
  /\ userList (res_state (onMessage ws message st)) = userList st
  /\ tempUserList (res_state (onMessage ws message st)) = tempUserList st
  /\ exists added,
       canvasState (res_state (onMessage ws message st)) = canvasState st ++ added
       /\ forallb (fun entry => well_formed_entry entry && negb (contains ";" entry))
                  added = true.
Proof.
  assert (forall st', clients st' = clients st -> userListStale st' = userListStale st ->
            userList st' = userList st -> tempUserList st' = tempUserList st ->
            canvasState st' = canvasState st ->
            clients st' = clients st
            /\ userListStale st' = userListStale st
            /\ userList st' = userList st
            /\ tempUserList st' = tempUserList st
            /\ exists added,
                 canvasState st' = canvasState st ++ added
                 /\ forallb (fun entry => well_formed_entry entry
                                          && negb (contains ";" entry)) added = true)
    as Hsame.
  { intros st' H1 H2 H3 H4 H5. repeat split; try done.
    exists []. by rewrite app_nil_r. }
  destruct message as [tag d]. unfold onMessage, dispatch. cbn [messageType data].
  destruct (String.eqb tag "userAccepted").
  { destruct d as [d|]; [|by apply Hsame].
    unfold userAccepted. destruct (find_user _ _ _); by apply Hsame. }
  destruct (String.eqb tag "pong").
  { destruct d as [d|]; [|by apply Hsame].
    unfold pong. destruct (num_eq _ _); by apply Hsame. }
  destruct (String.eqb tag "paint").
  { destruct d as [d|]; [|by apply Hsame].
    unfold paint. rewrite paint_loop_spec. cbn [res_state].
    repeat split. exists (accepted_prefix (split ";" d)). split; [done|].
    apply accepted_prefix_ok, split_pieces. }
  destruct (String.eqb tag "updateColor"); [|by apply Hsame].
  destruct d as [d|]; [|by apply Hsame].
  unfold updateColor. destruct (_ =? _)%nat; [|by apply Hsame].
  destruct (userListStale st) eqn:Hstale; destruct (find_user _ _ _);
    cbn [res_state]; (split; [done|]); (split; [exact Hstale|]);
    (split; [done|]); (split; [done|]);
    exists []; by rewrite app_nil_r.
Qed.

Lemma step_history ev st :
  exists added,
    canvasState (res_state (step ev st)) = canvasState st ++ added
    /\ forallb (fun entry => well_formed_entry entry && negb (contains ";" entry))
               added = true.
Proof.
  destruct ev as [ws|ws message|ws| |];
    try (exists []; split; [by rewrite app_nil_r | done]).
  by destruct (onMessage_keeps ws message st) as (_ & _ & _ & _ & H).
Qed.

Lemma run_history evs st :
  exists added,
    canvasState (res_state (run evs st)) = canvasState st ++ added
    /\ forallb (fun entry => well_formed_entry entry && negb (contains ";" entry))
               added = true.
Proof.
  revert st. induction evs as [|ev rest IH]; intros st.
  - exists []. split; [by rewrite app_nil_r | done].
  - destruct (step_history ev st) as (a1 & Ha1 & Hok1). simpl.
    destruct (res_completion (step ev st)); [|by eauto].
    destruct (IH (res_state (step ev st))) as (a2 & Ha2 & Hok2).
    exists (a1 ++ a2). cbn [res_state]. split.
    + by rewrite Ha2, Ha1, app_assoc.
    + by rewrite forallb_app, Hok1, Hok2.
Qed.

End Frames.


(** X2.  The history is append-only: whatever the server handles, what
    [canvasState] held before is still there, at the front and in order. *)
Theorem canvasState_append_only (evs : list event) (st : state) :
  canvasState st `prefix_of` canvasState (res_state (run evs st)).
Proof.
  destruct (run_history evs st) as (added & Hadded & _). by exists added.
Qed.

(** X3.  The history only ever gains entries of exactly three
    comma-separated fields, none of them holding a semicolon: a history
    of such entries stays one, whatever the server handles. *)
Theorem history_entries_well_formed (evs : list event) (st : state) :
  history_ok st = true -> history_ok (res_state (run evs st)) = true.
Proof.
  unfold history_ok. intros Hok.
  destruct (run_history evs st) as (added & -> & Hadded).
  by rewrite forallb_app, Hok, Hadded.
Qed.

Lemma history_entries_well_formed_witness :
  history_ok
    (res_state (run [Connection 0%nat;
                     Message 0%nat (InMsg "paint" (Some "3,4,#00ff00;5,6,#00ff00"));
                     Message 0%nat (InMsg "paint" (Some "1,2,red;3,4"))] init)) = true.
Proof.
  apply history_entries_well_formed. reflexivity.
Defined.

(** ** Accepted batches, the replay and the error report *)

Section Reports.

Lemma errors_app a b : errors (a ++ b) = errors a ++ errors b.
Proof. unfold errors. apply List.filter_app. Qed.

Lemma errors_broadcast type d st :
  String.eqb type "error" = false -> errors (broadcast type d st) = [].
Proof.
  intros Htype. unfold broadcast, errors.
  induction (clients st) as [|c r IH]; [done|].
  rewrite fmap_cons. cbn [List.filter snd].
  destruct d as [s|]; [destruct (String.eqb s "")|]; cbn [out_messageType];
    by rewrite Htype.
Qed.

(** What the body of the [switch] sends is never an error frame. *)
Lemma dispatch_sends_no_error ws message st st' out valid :
  dispatch ws message st = Done st' out valid -> errors out = [].
Proof.
  destruct message as [tag d]. unfold dispatch. cbn [messageType data].
  destruct (String.eqb tag "userAccepted").
  { destruct d as [d|]; [|done]. unfold userAccepted.
    destruct (find_user _ _ _); intros [= _ <- _]; [|done].
    rewrite errors_app.
    destruct (userListStale _); destruct (_ <? _)%nat;
      rewrite ?errors_broadcast by done; done. }
  destruct (String.eqb tag "pong").
  { destruct d as [d|]; [|done]. unfold pong.
    destruct (num_eq _ _); by intros [= _ <- _]. }
  destruct (String.eqb tag "paint").
  { destruct d as [d|]; [|done]. unfold paint.
    destruct (paint_loop _ _) as [history [|]]; intros [= _ <- _]; [|done].
    by apply errors_broadcast. }
  destruct (String.eqb tag "updateColor"); [|by intros [= _ <- _]].
  destruct d as [d|]; [|done]. unfold updateColor.
  destruct (_ =? _)%nat; [|by intros [= _ <- _]].
  destruct (userListStale st); destruct (find_user _ _ _);
    intros [= _ <- _] || intros [=]; [done|].
  by apply errors_broadcast.
Qed.

End Reports.

Lemma paint_valid_batch_stored_and_broadcast_aux ws d st :
  forallb well_formed_entry (split ";" d) = true ->
  onMessage ws (InMsg "paint" (Some d)) st
    = Result (set_canvasState (canvasState st ++ split ";" d) st)
             ((fun client => (client, OutMsg "paint" (Some (PStr d)) None))
                <$> clients st)
             Normal.
Proof.
  intros Hvalid. unfold onMessage, dispatch, paint. cbn [messageType data].
  rewrite paint_loop_spec, Hvalid, (accepted_prefix_all _ Hvalid).
  change (String.eqb "paint" "userAccepted") with false.
  change (String.eqb "paint" "pong") with false.
  change (String.eqb "paint" "paint") with true.
  cbv beta iota. rewrite app_nil_r. f_equal.
  unfold broadcast. destruct (String.eqb_spec d "") as [->|Hd]; [done|].
  done.
Qed.

(** X4.  A batch whose entries all have three fields is stored whole and
    in order, and is sent on verbatim to every connection; the sender gets
    no error and the user lists are not touched. *)
Theorem paint_valid_batch_stored_and_broadcast (ws : conn) (d : string) (st : state) :
  forallb well_formed_entry (split ";" d) = true ->
  onMessage ws (InMsg "paint" (Some d)) st
    = Result (set_canvasState (canvasState st ++ split ";" d) st)
             ((fun client => (client, OutMsg "paint" (Some (PStr d)) None))
                <$> clients st)
             Normal.
Proof. apply paint_valid_batch_stored_and_broadcast_aux. Qed.

Lemma paint_valid_batch_stored_and_broadcast_witness :
  let st := res_state (run [Connection 0%nat; Connection 1%nat] init) in
  onMessage 0%nat (InMsg "paint" (Some "3,4,#00ff00")) st
    = Result (set_canvasState ["3,4,#00ff00"] st)
             [(0%nat, OutMsg "paint" (Some (PStr "3,4,#00ff00")) None);
              (1%nat, OutMsg "paint" (Some (PStr "3,4,#00ff00")) None)]
             Normal.
Proof.
  apply (paint_valid_batch_stored_and_broadcast 0%nat "3,4,#00ff00"). reflexivity.
Defined.

(** X5.  Whatever the frame, the server sends at most one error frame for
    it, to the sender and to nobody else, and that frame echoes the
    frame received. *)
Theorem error_goes_to_sender_only (ws : conn) (message : inmsg) (st : state) :
  errors (res_sent (onMessage ws message st)) = []
  \/ errors (res_sent (onMessage ws message st)) = [(ws, errorMessage message)].
Proof.
  unfold onMessage.
  destruct (dispatch ws message st) as [st' out valid|st' out] eqn:Hd;
    cbn [res_sent].
  - rewrite errors_app, (dispatch_sends_no_error _ _ _ _ _ _ Hd).
    destruct valid; [by left | by right].
  - apply dispatch_Thrown in Hd as [_ ->]. by left.
Qed.



(** X8.  [generateUUID] always returns, and what it returns is the least
    positive integer that no record of the authoritative list carries; it
    is at most one more than the number of records. *)
Theorem generateUUID_least_free (st : state) :
  1 <= generateUUID st <= Z.of_nat (length (contents st (userList st))) + 1
  /\ holds st (userList st) (Some (generateUUID st)) = false
  /\ forall m, 1 <= m < generateUUID st -> holds st (userList st) (Some m) = true.
Proof.
  destruct (generateUUID_smallest st) as (Hpos & Hfree & Hbelow).
  split; [|done]. split; [done|].
  unfold generateUUID.
  destruct (generateUUID_loop_total (contents st (userList st))) as [n Hn].
  rewrite Hn. change (default 0 (Some n)) with n.
  apply generateUUID_loop_Some in Hn as (Hrange & _). lia.
Qed.

(** X9.  A colour change that does not have exactly two fields is refused:
    the sender gets one error frame, nothing else is sent and nothing
    changes. *)
Theorem updateColor_wrong_field_count (ws : conn) (d : string) (st : state) :
  length (split "," d) <> 2%nat ->
  onMessage ws (InMsg "updateColor" (Some d)) st
    = Result st [(ws, errorMessage (InMsg "updateColor" (Some d)))] Normal.
Proof.
  intros Hcount. apply Nat.eqb_neq in Hcount.
  unfold onMessage, dispatch, updateColor. cbn [messageType data].
  change (String.eqb "updateColor" "userAccepted") with false.
  change (String.eqb "updateColor" "pong") with false.
  change (String.eqb "updateColor" "paint") with false.
  change (String.eqb "updateColor" "updateColor") with true.
  cbv beta iota. by rewrite Hcount.
Qed.

Lemma updateColor_wrong_field_count_witness :
  let st := res_state (run [Connection 0%nat] init) in
  onMessage 0%nat (InMsg "updateColor" (Some "1,rgb(0,255,0)")) st
    = Result st [(0%nat, errorMessage (InMsg "updateColor" (Some "1,rgb(0,255,0)")))]
             Normal.
Proof.
  apply updateColor_wrong_field_count. simpl. lia.
Defined.

(** X10.  When a connection closes, a sweep starts without it: it is no
    longer among the connections and gets no probe, every remaining
    connection gets exactly the probe, the list is stale, the provisional
    list is empty and the authoritative list is as it was. *)
Theorem close_starts_sweep_without_the_closed (ws : conn) (st : state) :
  wf st ->
  let st' := fst (onClose ws st) in
  (ws ∉ clients st')
  /\ clients st' = List.filter (fun c => negb (Nat.eqb c ws)) (clients st)
  /\ snd (onClose ws st)
       = (fun client => (client, OutMsg "ping" None None)) <$> clients st'
  /\ received ws (snd (onClose ws st)) = []
  /\ userListStale st' = true
  /\ contents st' (tempUserList st') = []
  /\ contents st' (userList st') = contents st (userList st).
Proof.
  intros Hwf. cbv zeta.
  assert (ws ∉ List.filter (fun c => negb (Nat.eqb c ws)) (clients st)) as Hgone.
  { intros Hin. apply list_elem_of_In, filter_In in Hin as [_ Hin].
    by rewrite Nat.eqb_refl in Hin. }
  split; [exact Hgone|]. split; [done|]. split; [done|].
  split.
  { unfold received. change (snd (onClose ws st))
      with ((fun client => (client, OutMsg "ping" None None))
              <$> List.filter (fun c => negb (Nat.eqb c ws)) (clients st)).
    induction (clients st) as [|c r IH]; [done|].
    cbn [List.filter]. destruct (Nat.eqb c ws) eqn:Hc; cbn [negb].
    - apply IH. intros Hin. apply Hgone. cbn [List.filter]. by rewrite Hc.
    - rewrite fmap_cons. cbn [List.filter fst]. rewrite Hc. apply IH.
      intros Hin. apply Hgone. cbn [List.filter]. rewrite Hc. cbn [negb].
      by right. }
  split; [done|].
  split; [apply (sendKeepAlive_temp_empty (set_clients _ st))|].
  apply wf_alt in Hwf as (Hu & _ & _).
  destruct (sendKeepAlive_userList (set_clients
              (List.filter (fun c => negb (Nat.eqb c ws)) (clients st)) st) Hu)
    as (_ & _ & Hsame).
  exact Hsame.
Qed.

Lemma close_starts_sweep_without_the_closed_witness :
  let st := res_state (run [Connection 0%nat; Connection 1%nat; Connection 2%nat] init) in
  let st' := fst (onClose 1%nat st) in
  (1%nat ∉ clients st')
  /\ clients st' = List.filter (fun c => negb (Nat.eqb c 1%nat)) (clients st)
  /\ snd (onClose 1%nat st)
       = (fun client => (client, OutMsg "ping" None None)) <$> clients st'
  /\ received 1%nat (snd (onClose 1%nat st)) = []
  /\ userListStale st' = true
  /\ contents st' (tempUserList st') = []
  /\ contents st' (userList st') = contents st (userList st).
Proof.
  exact (close_starts_sweep_without_the_closed 1%nat
           (res_state (run [Connection 0%nat; Connection 1%nat; Connection 2%nat] init))
           eq_refl).
Defined.

(** ** Sweeps and the two lists *)

Section StaleDistinct.

Lemma tagged_app tag a b : tagged tag (a ++ b) = tagged tag a ++ tagged tag b.
Proof. unfold tagged. apply List.filter_app. Qed.

Lemma tagged_broadcast tag type d st :
  String.eqb type tag = false -> tagged tag (broadcast type d st) = [].
Proof.
  intros Htype. unfold broadcast, tagged.
  induction (clients st) as [|c r IH]; [done|].
  rewrite fmap_cons. cbn [List.filter snd].
  destruct d as [s|]; [destruct (String.eqb s "")|]; cbn [out_messageType];
    by rewrite Htype.
Qed.

Lemma step_stale_distinct ev st :
  wf st -> stale_distinct st = true ->
  stale_distinct (res_state (step ev st)) = true.
Proof.
  intros (Hu & _ & _)%wf_alt Hinv.
  destruct ev as [ws|ws message|ws| |].
  - exact Hinv.
  - unfold stale_distinct. cbn [step].
    destruct (onMessage_keeps ws message st) as (_ & -> & -> & -> & _).
    exact Hinv.
  - unfold stale_distinct. cbn.
    apply negb_true_iff, Nat.eqb_neq. lia.
  - unfold stale_distinct. cbn.
    apply negb_true_iff, Nat.eqb_neq. lia.
  - done.
Qed.

Lemma run_stale_distinct evs st :
  wf st -> stale_distinct st = true ->
  stale_distinct (res_state (run evs st)) = true.
Proof.
  revert st. induction evs as [|ev rest IH]; intros st Hwf Hinv; [done|].
  simpl. pose proof (step_stale_distinct ev st Hwf Hinv) as Hstep.
  destruct (res_completion (step ev st)); [|done].
  cbn [res_state]. apply IH; [by apply wf_step | done].
Qed.

(** A sorted list is a fixed point of the sort. *)
Lemma sort_sorted_id l :
  numeric_identities l -> Sorted identity_le l -> sort userSortFunc l = l.
Proof.
  intros Hnum Hsorted. induction l as [|u r IH]; [done|].
  apply Forall_cons in Hnum as [[x Hx] Hnum].
  apply Sorted_inv in Hsorted as [Hsorted Hhd].
  cbn [sort]. rewrite (IH Hnum Hsorted).
  destruct r as [|v r']; [done|].
  apply Forall_cons in Hnum as [[y Hy] _].
  cbn [insert_sorted]. rewrite (userSortFunc_before u v x y Hx Hy).
  apply HdRel_inv in Hhd. unfold identity_le in Hhd. rewrite Hx, Hy in Hhd.
  destruct (Z.leb_spec x y); [done|lia].
Qed.

Lemma contents_push_new a u st :
  wf st -> (a < length (arrays st))%nat ->
  contents (push a (length (heap st)) (snd (new_record u st))) a
    = contents st a ++ [u].
Proof.
  intros Hwf Ha. unfold contents at 1.
  rewrite elems_push_eq by done.
  change (elems (snd (new_record u st)) a) with (elems st a).
  rewrite fmap_app. f_equal.
  - apply list_fmap_ext. intros i l Hl.
    apply (deref_new_record_old u st l), (wf_elems st a); [done|].
    by eapply list_elem_of_lookup_2.
  - change ([deref (snd (new_record u st)) (fst (new_record u st))] = [u]).
    by rewrite deref_new_record_new.
Qed.

Lemma contents_push_new_other a b u st :
  wf st -> a <> b ->
  contents (push a (length (heap st)) (snd (new_record u st))) b = contents st b.
Proof.
  intros Hwf Hab. unfold contents at 1.
  rewrite elems_push_ne by done.
  change (elems (snd (new_record u st)) b) with (elems st b).
  apply list_fmap_ext. intros i l Hl.
  apply (deref_new_record_old u st l), (wf_elems st b); [done|].
  by eapply list_elem_of_lookup_2.
Qed.

End StaleDistinct.

(** X11.  While the list is stale only the timeout sends a user list: no
    connection, frame, closed connection or tick of the interval makes
    the server send [announceConnectedUsers]. *)
Theorem stale_list_is_not_sent (ev : event) (st : state) :
  userListStale st = true ->
  ev <> Timeout ->
  tagged "announceConnectedUsers" (res_sent (step ev st)) = [].
Proof.
  intros Hstale Hev.
  destruct ev as [ws|ws [tag d]|ws| |]; try done.
  - cbn [step]. unfold onMessage, dispatch. cbn [messageType data].
    destruct (String.eqb tag "userAccepted").
    { destruct d as [d|]; [|done]. unfold userAccepted.
      destruct (find_user _ _ _) as [u|]; [|done]. cbn [res_sent].
      change (userListStale (write_color u _ st)) with (userListStale st).
      rewrite Hstale, app_nil_r. by destruct (_ <? _)%nat. }
    destruct (String.eqb tag "pong").
    { destruct d as [d|]; [|done]. unfold pong.
      by destruct (num_eq _ _). }
    destruct (String.eqb tag "paint").
    { destruct d as [d|]; [|done]. unfold paint.
      destruct (paint_loop _ _) as [history [|]]; cbn [res_sent]; [|done].
      rewrite app_nil_r. by apply tagged_broadcast. }
    destruct (String.eqb tag "updateColor"); [|done].
    destruct d as [d|]; [|done]. unfold updateColor.
    destruct (_ =? _)%nat; [|done]. rewrite Hstale.
    by destruct (find_user _ _ _).
  - apply (tagged_broadcast _ "ping" None). done.
  - apply (tagged_broadcast _ "ping" None). done.
Qed.

Lemma stale_list_is_not_sent_witness :
  let st := res_state (run [Connection 0%nat; Interval] init) in
  tagged "announceConnectedUsers"
         (res_sent (step (Message 0%nat (InMsg "userAccepted" (Some "1,#ff0000"))) st))
    = [].
Proof.
  apply stale_list_is_not_sent; [reflexivity | discriminate].
Defined.

(** X12.  In every state the server reaches, the two list variables name
    different arrays while the list is stale; so a connection accepted
    during a sweep adds exactly one entry to the authoritative list and
    one to the provisional list. *)
Theorem connection_during_sweep_adds_one (evs : list event) (ws : conn) :
  let st := res_state (run evs init) in
  userListStale st = true ->
  userList st <> tempUserList st
  /\ length (contents (fst (onConnection ws st)) (userList st))
     = S (length (contents st (userList st)))
  /\ length (contents (fst (onConnection ws st)) (tempUserList st))
     = S (length (contents st (tempUserList st))).
Proof.
  cbv zeta. intros Hstale.
  set (st := res_state (run evs init)) in *.
  assert (wf st) as Hwf by apply (wf_run evs init wf_init).
  pose proof (run_stale_distinct evs init wf_init eq_refl) as Hinv.
  fold st in Hinv. unfold stale_distinct in Hinv. rewrite Hstale in Hinv.
  apply negb_true_iff, Nat.eqb_neq in Hinv.
  split; [done|].
  set (stc := set_clients (clients st ++ [ws]) st).
  destruct (addUser_distinct stc Hwf Hinv) as [Hperm Htemp].
  change (fst (onConnection ws st)) with (snd (addUser stc)).
  unfold contents. rewrite !length_fmap.
  change (userList st) with (userList stc). change (tempUserList st) with (tempUserList stc).
  rewrite Hperm, Htemp, !length_app.
  change (elems stc) with (elems st). simpl. split; lia.
Qed.

Lemma connection_during_sweep_adds_one_witness :
  let st := res_state (run [Connection 0%nat; Interval; Timeout; Interval] init) in
  userList st <> tempUserList st
  /\ length (contents (fst (onConnection 1%nat st)) (userList st))
     = S (length (contents st (userList st)))
  /\ length (contents (fst (onConnection 1%nat st)) (tempUserList st))
     = S (length (contents st (tempUserList st))).
Proof.
  exact (connection_during_sweep_adds_one
           [Connection 0%nat; Interval; Timeout; Interval] 1%nat eq_refl).
Defined.

(** X13.  [addUser] leaves the authoritative list in ascending order of
    identity, whatever order it was in, provided the identities it holds
    are safe integers (numbers, or strings that read as numbers, of at
    most [2^53 - 1] in magnitude). *)
Theorem addUser_sorts_userList (st : state) :
  wf st ->
  safe_identities (contents st (userList st)) ->
  StronglySorted identity_le (contents (snd (addUser st)) (userList st))
  /\ [VNum (generateUUID st); VStr "black"] ∈ contents (snd (addUser st)) (userList st).
Proof.
  intros Hwf Hsafe. pose proof (safe_identities_numeric _ Hsafe) as Hnum.
  assert (forall l, l ∈ elems (snd (addUser st)) (userList st) ->
                    l ∈ elems st (userList st) \/ l = length (heap st)) as Hwhere.
  { intros l Hl.
    destruct (decide (userList st = tempUserList st)) as [Heq|Hne].
    - rewrite (addUser_shared st Hwf Heq) in Hl.
      apply elem_of_app in Hl as [Hl|Hl]; [by left|].
      right. apply elem_of_cons in Hl as [->|Hl]; [done|].
      by apply list_elem_of_singleton in Hl.
    - destruct (addUser_distinct st Hwf Hne) as [Hperm _]. rewrite Hperm in Hl.
      apply elem_of_app in Hl as [Hl|Hl]; [by left|].
      right. by apply list_elem_of_singleton in Hl. }
  assert (length (heap st) ∈ elems (snd (addUser st)) (userList st)) as Hnew.
  { destruct (decide (userList st = tempUserList st)) as [Heq|Hne].
    - rewrite (addUser_shared st Hwf Heq). apply elem_of_app. right. by left.
    - destruct (addUser_distinct st Hwf Hne) as [-> _].
      apply elem_of_app. right. by left. }
  split.
  - set (st3 := push (tempUserList st) (length (heap st))
                  (push (userList st) (length (heap st))
                     (snd (new_record [VNum (generateUUID st); VStr "black"] st)))).
    change (snd (addUser st)) with (sort_array (userList st) st3) in *.
    rewrite contents_sort_array_eq. apply sort_sorted.
    apply (numeric_identities_perm (sort userSortFunc (contents st3 (userList st))));
      [apply sort_perm|].
    rewrite <- contents_sort_array_eq.
    apply Forall_forall. intros u Hu. unfold contents in Hu.
    apply list_elem_of_fmap in Hu as (l & -> & Hl).
    destruct (Hwhere l Hl) as [Hold| ->].
    + change (sort_array (userList st) st3) with (snd (addUser st)).
      rewrite (addUser_deref_old st l) by (by apply (wf_elems st (userList st))).
      unfold numeric_identities in Hnum. rewrite Forall_forall in Hnum.
      apply Hnum. unfold contents. apply list_elem_of_fmap. eauto.
    + change (sort_array (userList st) st3) with (snd (addUser st)).
      rewrite addUser_deref_new. by eexists.
  - unfold contents. apply list_elem_of_fmap. exists (length (heap st)).
    split; [by rewrite addUser_deref_new | done].
Qed.

Lemma addUser_sorts_userList_witness :
  let st := res_state (run [Connection 0%nat; Connection 1%nat] init) in
  StronglySorted identity_le (contents (snd (addUser st)) (userList st))
  /\ [VNum (generateUUID st); VStr "black"] ∈ contents (snd (addUser st)) (userList st).
Proof.
  apply addUser_sorts_userList; [reflexivity|].
  change (safe_identities [[VNum 1; VStr "black"]; [VNum 2; VStr "black"]]).
  repeat constructor.
Defined.

(** X14.  A liveness reply that does not carry the sentinel is put at the
    end of the provisional list as it came, field by field; when the
    provisional list is another array than the authoritative one, as it is
    during a sweep, the authoritative list is not touched; nothing is
    sent. *)
Theorem pong_joins_provisional_list (ws : conn) (d : string) (st : state) :
  wf st ->
  userList st <> tempUserList st ->
  num_eq (parseIntV (field0 (VStr <$> split "," d))) (Some (-1)) = false ->
  let r := onMessage ws (InMsg "pong" (Some d)) st in
  contents (res_state r) (tempUserList st)
    = contents st (tempUserList st) ++ [VStr <$> split "," d]
  /\ contents (res_state r) (userList st) = contents st (userList st)
  /\ res_sent r = []
  /\ res_completion r = Normal.
Proof.
  intros Hwf Hne Hassigned. cbv zeta.
  pose proof Hwf as (_ & Ht & _)%wf_alt.
  unfold onMessage, dispatch, pong. cbn [messageType data].
  change (String.eqb "pong" "userAccepted") with false.
  change (String.eqb "pong" "pong") with true.
  cbv beta iota. rewrite Hassigned. cbn [res_state res_sent res_completion].
  split; [|split; [|done]].
  - by apply contents_push_new.
  - apply contents_push_new_other; [done|]. intros Heq. by apply Hne.
Qed.

Lemma pong_joins_provisional_list_witness :
  let st := res_state (run [Connection 0%nat; Interval] init) in
  let r := onMessage 0%nat (InMsg "pong" (Some "1,#ff0000")) st in
  contents (res_state r) (tempUserList st)
    = contents st (tempUserList st) ++ [VStr <$> split "," "1,#ff0000"]
  /\ contents (res_state r) (userList st) = contents st (userList st)
  /\ res_sent r = []
  /\ res_completion r = Normal.
Proof.
  apply (pong_joins_provisional_list 0%nat "1,#ff0000"
           (res_state (run [Connection 0%nat; Interval] init)));
    [reflexivity | vm_compute; discriminate | reflexivity].
Defined.

(** C3 (code defect).  The timeout does not clear the provisional list and
    takes no copy of it: [userList = tempUserList.sort(userSortFunc)] makes
    both variables name the one array.  After the commit the provisional
    list therefore still holds what was collected, and an insertion into
    it changes the authoritative list at once: a liveness reply that
    arrives after the commit is appended to the authoritative list, with
    no commit and no broadcast. *)
Theorem late_reply_enters_committed_list (ws : conn) (d : string) (st : state) :
  wf st ->
  num_eq (parseIntV (field0 (VStr <$> split "," d))) (Some (-1)) = false ->
  let st1 := fst (keepAliveTimeout st) in
  let late := onMessage ws (InMsg "pong" (Some d)) st1 in
  tempUserList st1 = userList st1
  /\ contents st1 (tempUserList st1) ≡ₚ contents st (tempUserList st)
  /\ userList (res_state late) = userList st1
  /\ contents (res_state late) (userList st1)
     = contents st1 (userList st1) ++ [VStr <$> split "," d]
  /\ res_sent late = []
  /\ res_completion late = Normal.
Proof.
  intros Hwf Hassigned. cbv zeta.
  pose proof (wf_keepAliveTimeout st Hwf) as Hwf1.
  pose proof Hwf1 as (Hu & _ & _)%wf_alt.
  split; [done|].
  split.
  { change (tempUserList (fst (keepAliveTimeout st)))
      with (userList (fst (keepAliveTimeout st))).
    rewrite keepAliveTimeout_userList. apply sort_perm. }
  unfold onMessage, dispatch, pong. cbn [messageType data].
  change (String.eqb "pong" "userAccepted") with false.
  change (String.eqb "pong" "pong") with true.
  cbv beta iota. rewrite Hassigned. cbn [res_state res_sent res_completion].
  split; [done|]. split; [|done].
  change (tempUserList (fst (keepAliveTimeout st)))
    with (userList (fst (keepAliveTimeout st))).
  by apply contents_push_new.
Qed.

Lemma late_reply_enters_committed_list_witness :
  let st := res_state (run [Connection 0%nat; Interval;
                            Message 0%nat (InMsg "pong" (Some "1,#ff0000"))] init) in
  let st1 := fst (keepAliveTimeout st) in
  let late := onMessage 0%nat (InMsg "pong" (Some "1,#ff0000")) st1 in
  tempUserList st1 = userList st1
  /\ contents st1 (tempUserList st1) ≡ₚ contents st (tempUserList st)
  /\ userList (res_state late) = userList st1
  /\ contents (res_state late) (userList st1)
     = contents st1 (userList st1) ++ [VStr <$> split "," "1,#ff0000"]
  /\ res_sent late = []
  /\ res_completion late = Normal.
Proof.
  exact (late_reply_enters_committed_list 0%nat "1,#ff0000"
           (res_state (run [Connection 0%nat; Interval;
                            Message 0%nat (InMsg "pong" (Some "1,#ff0000"))] init))
           eq_refl eq_refl).
Defined.

(** The run of the witness: a client connects, is probed and replies; the
    timeout commits the list of that one reply and leaves it in the
    provisional list; the same client's second reply, arriving after the
    commit, stands in the authoritative list at once. *)
Example late_reply_after_commit :
  let st1 := res_state (run [Connection 0%nat; Interval;
                             Message 0%nat (InMsg "pong" (Some "1,#ff0000"));
                             Timeout] init) in
  let late := onMessage 0%nat (InMsg "pong" (Some "1,#ff0000")) st1 in
  userListStale st1 = false
  /\ contents st1 (userList st1) = [[VStr "1"; VStr "#ff0000"]]
  /\ contents st1 (tempUserList st1) = [[VStr "1"; VStr "#ff0000"]]
  /\ contents (res_state late) (userList (res_state late))
     = [[VStr "1"; VStr "#ff0000"]; [VStr "1"; VStr "#ff0000"]]
  /\ res_sent late = [].
Proof. repeat split. Qed.

(** X15.  Committing twice in a row commits the same list: when the
    identities collected are numeric, a second timeout with nothing
    handled in between leaves the authoritative list as the first one made
    it and broadcasts the same frames. *)
Theorem second_commit_repeats_the_first (st : state) :
  wf st ->
  numeric_identities (contents st (tempUserList st)) ->
  let st1 := fst (keepAliveTimeout st) in
  let st2 := fst (keepAliveTimeout st1) in
  contents st2 (userList st2) = contents st1 (userList st1)
  /\ snd (keepAliveTimeout st1) = snd (keepAliveTimeout st).
Proof.
  intros Hwf Hnum. cbv zeta.
  pose proof (keepAliveTimeout_userList st) as H1.
  pose proof (keepAliveTimeout_userList (fst (keepAliveTimeout st))) as H2.
  change (tempUserList (fst (keepAliveTimeout st)))
    with (userList (fst (keepAliveTimeout st))) in H2.
  assert (sort userSortFunc (sort userSortFunc (contents st (tempUserList st)))
          = sort userSortFunc (contents st (tempUserList st))) as Hfix.
  { apply sort_sorted_id.
    - by apply (numeric_identities_perm (contents st (tempUserList st)));
        [symmetry; apply sort_perm|].
    - apply StronglySorted_Sorted. by apply sort_sorted. }
  rewrite H1, Hfix in H2. split; [by rewrite H2, H1|].
  rewrite (keepAliveTimeout_sent (fst (keepAliveTimeout st))),
          (keepAliveTimeout_sent st).
  cbv zeta. unfold joinUsers. rewrite H2, <- H1. reflexivity.
Qed.

Lemma second_commit_repeats_the_first_witness :
  let st := res_state (run [Connection 0%nat; Interval;
                            Message 0%nat (InMsg "pong" (Some "1,#ff0000"))] init) in
  let st1 := fst (keepAliveTimeout st) in
  let st2 := fst (keepAliveTimeout st1) in
  contents st2 (userList st2) = contents st1 (userList st1)
  /\ snd (keepAliveTimeout st1) = snd (keepAliveTimeout st).
Proof.
  apply second_commit_repeats_the_first; [reflexivity|].
  change (numeric_identities [[VStr "1"; VStr "#ff0000"]]).
  repeat constructor; by eexists.
Defined.

(** ** The client *)

Section ClientPaint.

(** The client's loop paints the entries up to the first one that does not
    have three fields, as the server's loop stores them. *)
Lemma client_paint_loop_spec entries drawn :
  Client.paint_loop entries drawn
    = drawn ++ (Client.instruction <$> accepted_prefix entries).
Proof.
  revert drawn. induction entries as [|entry rest IH]; intros drawn; simpl.
  - by rewrite app_nil_r.
  - unfold well_formed_entry.
    destruct (length (split "," entry) =? 3)%nat.
    + rewrite IH, fmap_cons, <- app_assoc. done.
    + by rewrite app_nil_r.
Qed.

Lemma plain_no_comma col : plain col = true -> contains "," col = false.
Proof. unfold plain. intros [H _]%andb_true_iff. by apply negb_true_iff. Qed.

Lemma plain_no_semicolon col : plain col = true -> contains ";" col = false.
Proof. unfold plain. intros [_ H]%andb_true_iff. by apply negb_true_iff. Qed.

(** An entry of the queue prints as three fields. *)
Lemma split_entryToString x y col :
  plain col = true ->
  split "," (Client.entryToString (x, y, col)) = [numToString x; numToString y; col].
Proof.
  intros Hcol. unfold Client.entryToString.
  change (join "," [numToString x; numToString y; col])
    with (numToString x +:+ String "," (numToString y +:+ String "," col)).
  rewrite split_app_sep by (by apply contains_numToString).
  rewrite split_app_sep by (by apply contains_numToString).
  by rewrite split_no_sep by (by apply plain_no_comma).
Qed.

Lemma entryToString_no_semicolon x y col :
  plain col = true -> contains ";" (Client.entryToString (x, y, col)) = false.
Proof.
  intros Hcol. unfold Client.entryToString.
  change (join "," [numToString x; numToString y; col])
    with (numToString x +:+ String "," (numToString y +:+ String "," col)).
  rewrite contains_append. cbn [contains]. rewrite contains_append.
  cbn [contains].
  rewrite !contains_numToString by done.
  by rewrite (plain_no_semicolon col Hcol).
Qed.

Lemma instruction_entryToString x y col :
  plain col = true ->
  Client.instruction (Client.entryToString (x, y, col)) = (Some x, Some y, col).
Proof.
  intros Hcol. unfold Client.instruction. rewrite split_entryToString by done.
  cbn. by rewrite !parseInt_numToString.
Qed.

(** A batch printed from a queue of plain colours splits back into its
    entries, each of three fields. *)
Lemma batch_of_queue queue :
  queue <> [] ->
  Forall (fun e => plain (snd e) = true) queue ->
  split ";" (join ";" (Client.entryToString <$> queue)) = Client.entryToString <$> queue
  /\ forallb well_formed_entry (Client.entryToString <$> queue) = true
  /\ Client.instruction <$> (Client.entryToString <$> queue)
     = (fun e => (Some (fst (fst e)), Some (snd (fst e)), snd e)) <$> queue.
Proof.
  intros Hne Hplain. split; [|split].
  - apply split_join; [by destruct queue|].
    apply Forall_fmap. eapply Forall_impl; [exact Hplain|].
    intros [[x y] col] Hcol. by apply entryToString_no_semicolon.
  - induction Hplain as [|[[x y] col] rest Hcol Hrest IH]; [done|].
    rewrite fmap_cons. cbn [forallb]. unfold well_formed_entry at 1.
    rewrite split_entryToString by done.
    destruct rest as [|e rest]; [done|]. by rewrite IH.
  - rewrite <- list_fmap_compose. apply Forall_fmap_ext_1.
    eapply Forall_impl; [exact Hplain|].
    intros [[x y] col] Hcol. by apply instruction_entryToString.
Qed.

End ClientPaint.

(** X16.  What a client queues is what every client paints.  When the
    queue is not empty and its colours hold no separator, the interval
    sends one [paint] frame and empties the queue; the server stores the
    entries in order and sends the batch to every connection; and a client
    that is sent that frame paints exactly the queued pixels, in order. *)
Theorem queued_pixels_reach_every_client
    (c other : Client.client) (ws : conn) (st : state) :
  Client.paintInstructionQueue c <> [] ->
  Forall (fun e => plain (snd e) = true) (Client.paintInstructionQueue c) ->
  let batch := join ";" (Client.entryToString <$> Client.paintInstructionQueue c) in
  let frame := OutMsg "paint" (Some (PStr batch)) None in
  Client.sendPaintInstructionQueue c
    = (Client.set_paintInstructionQueue [] c, [InMsg "paint" (Some batch)])
  /\ onMessage ws (InMsg "paint" (Some batch)) st
     = Result (set_canvasState
                 (canvasState st ++ (Client.entryToString <$> Client.paintInstructionQueue c))
                 st)
              ((fun client => (client, frame)) <$> clients st)
              Normal
  /\ Client.painted (Client.rea_client (Client.onmessage frame other))
     = Client.painted other
       ++ ((fun e => (Some (fst (fst e)), Some (snd (fst e)), snd e))
             <$> Client.paintInstructionQueue c).
Proof.
  intros Hne Hplain. cbv zeta.
  destruct (batch_of_queue _ Hne Hplain) as (Hsplit & Hvalid & Hinstr).
  split; [|split].
  - unfold Client.sendPaintInstructionQueue.
    by destruct (Client.paintInstructionQueue c).
  - rewrite paint_valid_batch_stored_and_broadcast_aux by (by rewrite Hsplit).
    by rewrite Hsplit.
  - unfold Client.onmessage. cbn.
    rewrite client_paint_loop_spec, Hsplit, (accepted_prefix_all _ Hvalid).
    by rewrite Hinstr.
Qed.

Lemma queued_pixels_reach_every_client_witness :
  let c := Client.set_paintInstructionQueue [(3, 4, "#00ff00"); (3, 5, "#00ff00")]
             (Client.start "#00ff00") in
  let other := Client.start "#ff0000" in
  let st := res_state (run [Connection 0%nat; Connection 1%nat] init) in
  let batch := join ";" (Client.entryToString <$> Client.paintInstructionQueue c) in
  let frame := OutMsg "paint" (Some (PStr batch)) None in
  Client.sendPaintInstructionQueue c
    = (Client.set_paintInstructionQueue [] c, [InMsg "paint" (Some batch)])
  /\ onMessage 0%nat (InMsg "paint" (Some batch)) st
     = Result (set_canvasState
                 (canvasState st ++ (Client.entryToString <$> Client.paintInstructionQueue c))
                 st)
              ((fun client => (client, frame)) <$> clients st)
              Normal
  /\ Client.painted (Client.rea_client (Client.onmessage frame other))
     = Client.painted other
       ++ ((fun e => (Some (fst (fst e)), Some (snd (fst e)), snd e))
             <$> Client.paintInstructionQueue c).
Proof.
  apply (queued_pixels_reach_every_client
           (Client.set_paintInstructionQueue [(3, 4, "#00ff00"); (3, 5, "#00ff00")]
              (Client.start "#00ff00"))
           (Client.start "#ff0000") 0%nat
           (res_state (run [Connection 0%nat; Connection 1%nat] init))).
  - discriminate.
  - repeat constructor.
Defined.

Example queued_pixels_on_the_wire :
  join ";" (Client.entryToString <$> [(3, 4, "#00ff00"); (3, 5, "#00ff00")])
    = "3,4,#00ff00;3,5,#00ff00".
Proof. reflexivity. Qed.

(** X17.  The replay paints the whole history.  A history of three-field
    entries without semicolons, joined as the server joins it for a new
    client, makes the client paint one pixel per entry, in the order of
    the history, and send nothing. *)
Theorem replay_paints_whole_history (st : state) (c : Client.client) :
  history_ok st = true ->
  canvasState st <> [] ->
  let frame := OutMsg "paint" (Some (PStr (join ";" (canvasState st)))) None in
  Client.onmessage frame c
    = Client.Reaction
        (Client.set_painted
           (Client.painted c ++ (Client.instruction <$> canvasState st)) c)
        [] Normal.
Proof.
  intros Hok Hne. cbv zeta. unfold history_ok in Hok.
  assert (split ";" (join ";" (canvasState st)) = canvasState st) as Hround.
  { apply split_join; [done|].
    rewrite forallb_forall in Hok. apply Forall_forall. intros entry Hin.
    apply list_elem_of_In, Hok, andb_true_iff in Hin as [_ Hin].
    by apply negb_true_iff. }
  assert (forallb well_formed_entry (canvasState st) = true) as Hvalid.
  { apply forallb_forall. intros entry Hin. rewrite forallb_forall in Hok.
    by apply Hok, andb_true_iff in Hin as [Hin _]. }
  unfold Client.onmessage. cbn.
  by rewrite client_paint_loop_spec, Hround, (accepted_prefix_all _ Hvalid).
Qed.

Lemma replay_paints_whole_history_witness :
  let st := res_state (run [Connection 0%nat;
                            Message 0%nat (InMsg "paint" (Some "3,4,#ff0000;3,5,#ff0000"))]
                           init) in
  let c := Client.start "#00ff00" in
  let frame := OutMsg "paint" (Some (PStr (join ";" (canvasState st)))) None in
  Client.onmessage frame c
    = Client.Reaction
        (Client.set_painted
           (Client.painted c ++ (Client.instruction <$> canvasState st)) c)
        [] Normal.
Proof.
  apply replay_paints_whole_history; [reflexivity | discriminate].
Defined.

(** X18.  A client is thrown by the user list of an empty server.  When
    the provisional list is empty at the timeout, the list joins to the
    empty string, [broadcast] leaves the [data] field out, and the client's
    handler throws on every frame of that broadcast. *)
Theorem empty_user_list_throws_in_client
    (st : state) (c : Client.client) (ws : conn) (frame : outmsg) :
  contents st (tempUserList st) = [] ->
  (ws, frame) ∈ snd (keepAliveTimeout st) ->
  frame = OutMsg "announceConnectedUsers" None None
  /\ Client.onmessage frame c = Client.Reaction c [] Uncaught.
Proof.
  intros Hempty Hin.
  rewrite (keepAliveTimeout_sent st) in Hin. cbv zeta in Hin.
  unfold joinUsers in Hin. rewrite keepAliveTimeout_userList, Hempty in Hin.
  unfold broadcast in Hin. cbn in Hin.
  apply list_elem_of_fmap in Hin as (client & [= _ ->] & _).
  done.
Qed.

Lemma empty_user_list_throws_in_client_witness :
  let st := res_state (run [Connection 0%nat; Interval] init) in
  OutMsg "announceConnectedUsers" None None
    = OutMsg "announceConnectedUsers" None None
  /\ Client.onmessage (OutMsg "announceConnectedUsers" None None) (Client.start "#ff0000")
     = Client.Reaction (Client.start "#ff0000") [] Uncaught.
Proof.
  apply (empty_user_list_throws_in_client
           (res_state (run [Connection 0%nat; Interval] init))
           (Client.start "#ff0000") 0%nat).
  - reflexivity.
  - vm_compute. by left.
Defined.

(** ** The handshake and the probe, both sides *)

Section BothSides.

Lemma addUser_elems_where st l :
  wf st ->
  l ∈ elems (snd (addUser st)) (userList st) ->
  l ∈ elems st (userList st) \/ l = length (heap st).
Proof.
  intros Hwf Hl.
  destruct (decide (userList st = tempUserList st)) as [Heq|Hne].
  - rewrite (addUser_shared st Hwf Heq) in Hl.
    apply elem_of_app in Hl as [Hl|Hl]; [by left|].
    right. apply elem_of_cons in Hl as [->|Hl]; [done|].
    by apply list_elem_of_singleton in Hl.
  - destruct (addUser_distinct st Hwf Hne) as [Hperm _]. rewrite Hperm in Hl.
    apply elem_of_app in Hl as [Hl|Hl]; [by left|].
    right. by apply list_elem_of_singleton in Hl.
Qed.

Lemma addUser_elems_new st :
  wf st -> length (heap st) ∈ elems (snd (addUser st)) (userList st).
Proof.
  intros Hwf.
  destruct (decide (userList st = tempUserList st)) as [Heq|Hne].
  - rewrite (addUser_shared st Hwf Heq). apply elem_of_app. right. by left.
  - destruct (addUser_distinct st Hwf Hne) as [-> _].
    apply elem_of_app. right. by left.
Qed.

(** After [addUser] the only record of the authoritative list whose first
    field is the number just allocated is the new record. *)
Lemma addUser_new_is_the_only_one st l :
  wf st ->
  l ∈ elems (snd (addUser st)) (userList st) ->
  num_strict_eq (Some (generateUUID st)) (field0 (deref (snd (addUser st)) l)) = true ->
  l = length (heap st).
Proof.
  intros Hwf Hl Hid.
  destruct (addUser_elems_where st l Hwf Hl) as [Hold|Hnew]; [|done].
  exfalso.
  rewrite (addUser_deref_old st l) in Hid by (by apply (wf_elems st (userList st))).
  destruct (generateUUID_smallest st) as (_ & Hfree & _).
  unfold holds in Hfree.
  assert (existsb (fun u => num_eq (Some (generateUUID st)) (parseIntV (field0 u)))
                  (contents st (userList st)) = true) as Hheld.
  { apply existsb_exists. exists (deref st l). split.
    - apply list_elem_of_In. unfold contents. apply list_elem_of_fmap. eauto.
    - by destruct (field0 (deref st l)). }
  congruence.
Qed.

Lemma find_user_first p a st :
  (exists l, l ∈ elems st a /\ p (deref st l) = true) ->
  exists l, find_user p a st = Some l /\ l ∈ elems st a /\ p (deref st l) = true.
Proof.
  intros (l & Hl & Hp).
  destruct (find_user p a st) as [l'|] eqn:Hfind.
  - exists l'. split; [done|]. by apply find_user_Some in Hfind.
  - apply find_user_None in Hfind. exfalso.
    assert (existsb p (contents st a) = true) as Hex; [|congruence].
    apply existsb_exists. exists (deref st l). split; [|done].
    apply list_elem_of_In. unfold contents. apply list_elem_of_fmap. eauto.
Qed.

Lemma split_identity n col :
  contains "," col = false ->
  split "," (numToString n +:+ "," +:+ col) = [numToString n; col].
Proof.
  intros Hcol.
  change (numToString n +:+ "," +:+ col) with (numToString n +:+ String "," col).
  rewrite split_app_sep by (by apply contains_numToString).
  by rewrite split_no_sep.
Qed.

End BothSides.

(** ** The first connection *)



(** Once a sweep has started the same handshake goes differently, though
    history and authoritative list are empty still.  During the sweep the
    client is sent no user list, which is what the guard on the stale
    flag is for.  After the commit of an empty sweep the two variables
    name one array, [addUser] pushes the record onto it twice, and the
    list sent names the client twice. *)
Example handshake_after_a_sweep_started :
  let swept := res_state (run [Interval] init) in
  let committed := res_state (run [Interval; Timeout] init) in
  canvasState swept = [] /\ contents swept (userList swept) = []
  /\ canvasState committed = [] /\ contents committed (userList committed) = []
  /\ res_sent (run (first_handshake 0%nat) swept) = [(0%nat, announceUUID 1)]
  /\ res_sent (run (first_handshake 0%nat) committed)
     = [(0%nat, announceUUID 1);
        (0%nat, OutMsg "announceConnectedUsers"
                       (Some (PStr "1,#ff0000;1,#ff0000")) None)].
Proof. repeat split. Qed.

Section Handshake.

Lemma num_strict_eq_VNum n v : num_strict_eq (Some n) v = true <-> v = VNum n.
Proof.
  destruct v as [m| |]; simpl; [|done..]. rewrite Z.eqb_eq.
  split; [by intros -> | by intros [= ->]].
Qed.

Lemma listed_once_lt l n st : listed_once l n st -> (l < length (heap st))%nat.
Proof.
  intros (_ & [col Hrec] & _). unfold deref in Hrec.
  destruct (heap st !! l) as [u|] eqn:Hl; [|done].
  by apply lookup_lt_Some in Hl.
Qed.

Lemma listed_once_holds l n st :
  listed_once l n st -> holds st (userList st) (Some n) = true.
Proof.
  intros (Hl & [col Hrec] & _). unfold holds. apply existsb_exists.
  exists (deref st l). split.
  - apply list_elem_of_In. unfold contents. apply list_elem_of_fmap. eauto.
  - rewrite Hrec. simpl. apply Z.eqb_refl.
Qed.

Lemma listed_once_fresh l n st : listed_once l n st -> generateUUID st <> n.
Proof.
  intros Hlisted Heq. apply listed_once_holds in Hlisted.
  destruct (generateUUID_smallest st) as (_ & Hfree & _).
  rewrite Heq in Hfree. congruence.
Qed.

Lemma listed_once_addUser l n st :
  wf st -> listed_once l n st -> listed_once l n (snd (addUser st)).
Proof.
  intros Hwf Hlisted. pose proof (listed_once_fresh l n st Hlisted) as Hfresh.
  pose proof (listed_once_lt l n st Hlisted) as Hlt.
  destruct Hlisted as (Hl & [col Hrec] & Hunique).
  change (userList (snd (addUser st))) with (userList st).
  split; [|split].
  - destruct (decide (userList st = tempUserList st)) as [Heq|Hne].
    + rewrite (addUser_shared st Hwf Heq). apply elem_of_app. by left.
    + destruct (addUser_distinct st Hwf Hne) as [-> _]. apply elem_of_app. by left.
  - exists col. by rewrite addUser_deref_old.
  - intros l' Hl' Hid.
    destruct (addUser_elems_where st l' Hwf Hl') as [Hold| ->].
    + apply Hunique; [done|].
      rewrite addUser_deref_old in Hid; [done|]. by apply (wf_elems st (userList st)).
    + rewrite addUser_deref_new in Hid.
      change (VNum (generateUUID st) = VNum n) in Hid. congruence.
Qed.

Lemma listed_once_push_new l n a u st :
  wf st -> listed_once l n st -> field0 u <> VNum n ->
  listed_once l n (push a (length (heap st)) (snd (new_record u st))).
Proof.
  intros Hwf Hlisted Hu. pose proof (listed_once_lt l n st Hlisted) as Hlt.
  destruct Hlisted as (Hl & [col Hrec] & Hunique).
  pose proof Hwf as (Hlist & _ & _)%wf_alt.
  set (st' := push a (length (heap st)) (snd (new_record u st))).
  assert (forall l', (l' < length (heap st))%nat -> deref st' l' = deref st l') as Hold.
  { intros l' Hl'. exact (deref_new_record_old u st l' Hl'). }
  assert (deref st' (length (heap st)) = u) as Hnew.
  { exact (deref_new_record_new u st). }
  assert (forall l', l' ∈ elems st' (userList st) ->
                     l' ∈ elems st (userList st) \/ l' = length (heap st)) as Hwhere.
  { intros l' Hl'. unfold st' in Hl'.
    destruct (decide (a = userList st)) as [->|Hne].
    - rewrite elems_push_eq in Hl' by done.
      apply elem_of_app in Hl' as [Hl'|Hl']; [by left|].
      right. by apply list_elem_of_singleton in Hl'.
    - left. by rewrite elems_push_ne in Hl'. }
  change (userList st') with (userList st).
  split; [|split].
  - unfold st'. destruct (decide (a = userList st)) as [->|Hne].
    + rewrite elems_push_eq by done. apply elem_of_app. by left.
    + by rewrite elems_push_ne.
  - exists col. by rewrite Hold.
  - intros l' Hl' Hid. destruct (Hwhere l' Hl') as [Hin| ->].
    + apply Hunique; [done|].
      rewrite Hold in Hid; [done|]. by apply (wf_elems st (userList st)).
    + rewrite Hnew in Hid. done.
Qed.

Lemma listed_once_write_color l n u v st :
  listed_once l n st -> listed_once l n (write_color u v st).
Proof.
  intros Hlisted. pose proof (listed_once_lt l n st Hlisted) as Hlt.
  destruct Hlisted as (Hl & [col Hrec] & Hunique).
  split; [done|]. split.
  - destruct (decide (u = l)) as [->|Hne].
    + exists v. by rewrite deref_write_color_eq, Hrec.
    + exists col. by rewrite deref_write_color_ne.
  - intros l' Hl' Hid. rewrite field0_write_color in Hid. by apply Hunique.
Qed.

Lemma listed_once_sendKeepAlive l n st :
  wf st -> listed_once l n st -> listed_once l n (fst (sendKeepAlive st)).
Proof.
  intros (Hlist & _ & _)%wf_alt (Hl & Hrec & Hunique).
  destruct (sendKeepAlive_userList st Hlist) as (Hvar & Helems & _).
  unfold listed_once. rewrite Hvar, Helems. done.
Qed.

Lemma field0_reply n d : field0 (VStr <$> split "," d) <> VNum n.
Proof. by destruct (split "," d). Qed.

Lemma listed_once_dispatch l n ws message st st' out valid :
  wf st -> listed_once l n st ->
  dispatch ws message st = Done st' out valid -> listed_once l n st'.
Proof.
  intros Hwf Hlisted. unfold dispatch.
  destruct (String.eqb _ "userAccepted").
  { destruct (data message); [|done]. unfold userAccepted.
    destruct (find_user _ _ _); intros [= <- _ _];
      [by apply listed_once_write_color | done]. }
  destruct (String.eqb _ "pong").
  { destruct (data message) as [d|]; [|done]. unfold pong.
    destruct (num_eq _ _); simpl; intros [= <- _ _].
    - apply (listed_once_push_new l n _ _ (snd (addUser st)));
        [by apply wf_addUser | by apply listed_once_addUser |].
      change (VNum (generateUUID st) <> VNum n).
      intros [= Heq]. by apply (listed_once_fresh l n st).
    - apply listed_once_push_new; [done..|]. apply field0_reply. }
  destruct (String.eqb _ "paint").
  { destruct (data message); [|done]. unfold paint.
    destruct (paint_loop _ _). by intros [= <- _ _]. }
  destruct (String.eqb _ "updateColor"); [|by intros [= <- _ _]].
  destruct (data message); [|done]. unfold updateColor.
  destruct (_ =? _)%nat; [|by intros [= <- _ _]].
  destruct (userListStale st); destruct (find_user _ _ _);
    intros [= <- _ _] || intros [=]; by apply listed_once_write_color.
Qed.

Lemma listed_once_step l n ev st :
  wf st -> listed_once l n st -> commits ev = false ->
  listed_once l n (res_state (step ev st)).
Proof.
  intros Hwf Hlisted Hev. destruct ev as [ws|ws message|ws| |]; [| | | |done].
  - by apply (listed_once_addUser l n (set_clients (clients st ++ [ws]) st)).
  - simpl. unfold onMessage.
    destruct (dispatch ws message st) as [st' out valid|st' out] eqn:Hd; simpl.
    + by eapply listed_once_dispatch.
    + by apply dispatch_Thrown in Hd as [-> _].
  - by apply (listed_once_sendKeepAlive l n (set_clients _ st)).
  - by apply listed_once_sendKeepAlive.
Qed.

Lemma listed_once_run l n evs st :
  wf st -> listed_once l n st ->
  forallb (fun ev => negb (commits ev)) evs = true ->
  listed_once l n (res_state (run evs st)).
Proof.
  revert st. induction evs as [|ev rest IH]; intros st Hwf Hlisted Hevs; [done|].
  cbn [forallb] in Hevs. apply andb_true_iff in Hevs as [Hev Hrest].
  apply negb_true_iff in Hev.
  pose proof (wf_step ev st Hwf) as Hwf1.
  pose proof (listed_once_step l n ev st Hwf Hlisted Hev) as Hstep.
  cbn [run]. destruct (res_completion (step ev st)); simpl; [by apply IH | done].
Qed.

End Handshake.

(** X19.  The handshake succeeds as long as no sweep commits before the
    answer.  The server tells a new connection the identity it allocated;
    the client adopts it and answers with it and its colour; and whatever
    the server handles in between (connections, frames, closed
    connections, ticks of the interval), short of a timeout or a crash,
    the server then finds the record it made for that connection and
    stores the colour in it, without an error. *)
Theorem handshake_is_accepted
    (ws : conn) (st : state) (c : Client.client) (evs : list event) :
  wf st ->
  contains "," (Client.color c) = false ->
  forallb (fun ev => negb (commits ev)) evs = true ->
  res_completion (run evs (fst (onConnection ws st))) = Normal ->
  let n := generateUUID st in
  let st1 := fst (onConnection ws st) in
  let rea := Client.onmessage (announceUUID n) c in
  let reply := InMsg "userAccepted" (Some (numToString n +:+ "," +:+ Client.color c)) in
  let r := onMessage ws reply (res_state (run evs st1)) in
  snd (onConnection ws st) = [(ws, announceUUID n)]
  /\ Client.currentUserId (Client.rea_client rea) = VNum n
  /\ Client.rea_sent rea = [reply]
  /\ res_completion r = Normal
  /\ errors (res_sent r) = []
  /\ length (heap st) ∈ elems (res_state r) (userList (res_state r))
  /\ deref (res_state r) (length (heap st)) = [VNum n; VStr (Client.color c)].
Proof.
  intros Hwf Hcol Hevs Hnormal. cbv zeta.
  split; [done|]. split; [done|]. split; [done|].
  set (stc := set_clients (clients st ++ [ws]) st).
  assert (wf stc) as Hwfc by done.
  change (fst (onConnection ws st)) with (snd (addUser stc)) in *.
  change (generateUUID st) with (generateUUID stc).
  change (length (heap st)) with (length (heap stc)).
  set (n := generateUUID stc).
  assert (listed_once (length (heap stc)) n (snd (addUser stc))) as Hfirst.
  { split; [exact (addUser_elems_new stc Hwfc)|]. split.
    - exists (VStr "black"). apply addUser_deref_new.
    - intros l Hl Hid. apply (addUser_new_is_the_only_one stc l Hwfc Hl).
      by apply num_strict_eq_VNum. }
  pose proof (wf_run evs _ (wf_addUser stc Hwfc)) as Hwf2.
  pose proof (listed_once_run _ n evs _ (wf_addUser stc Hwfc) Hfirst Hevs) as Hlisted.
  set (st2 := res_state (run evs (snd (addUser stc)))) in *.
  pose proof (listed_once_lt _ _ _ Hlisted) as Hlt.
  destruct Hlisted as (Hin & [old Hrec] & Hunique).
  set (p := fun user : list value => num_strict_eq (Some n) (field0 user)).
  destruct (find_user_first p (userList st2) st2) as (l & Hfind & Hl & Hp).
  { exists (length (heap stc)). split; [done|].
    unfold p. rewrite Hrec. by apply num_strict_eq_VNum. }
  assert (l = length (heap stc)) as ->.
  { apply Hunique; [done|]. by apply num_strict_eq_VNum. }
  unfold onMessage, dispatch, userAccepted. cbn [messageType data].
  change (String.eqb "userAccepted" "userAccepted") with true. cbv beta iota.
  rewrite (split_identity n _ Hcol). cbn [lookup list_lookup default from_option id].
  rewrite parseInt_numToString. fold p. rewrite Hfind.
  cbn [res_state res_sent res_completion].
  split; [done|]. split.
  { rewrite app_nil_r, errors_app.
    destruct (userListStale _); destruct (_ <? _)%nat;
      rewrite ?errors_broadcast by done; done. }
  split; [exact Hin|].
  by rewrite deref_write_color_eq, Hrec.
Qed.

Lemma handshake_is_accepted_witness :
  let st := res_state (run [Connection 0%nat; Interval; Timeout] init) in
  let c := Client.start "#00ff00" in
  let evs := [Close 0%nat; Connection 2%nat;
              Message 2%nat (InMsg "pong" (Some "-1,#0000ff"))] in
  let n := generateUUID st in
  let st1 := fst (onConnection 1%nat st) in
  let rea := Client.onmessage (announceUUID n) c in
  let reply := InMsg "userAccepted" (Some (numToString n +:+ "," +:+ Client.color c)) in
  let r := onMessage 1%nat reply (res_state (run evs st1)) in
  snd (onConnection 1%nat st) = [(1%nat, announceUUID n)]
  /\ Client.currentUserId (Client.rea_client rea) = VNum n
  /\ Client.rea_sent rea = [reply]
  /\ res_completion r = Normal
  /\ errors (res_sent r) = []
  /\ length (heap st) ∈ elems (res_state r) (userList (res_state r))
  /\ deref (res_state r) (length (heap st)) = [VNum n; VStr (Client.color c)].
Proof.
  exact (handshake_is_accepted 1%nat
           (res_state (run [Connection 0%nat; Interval; Timeout] init))
           (Client.start "#00ff00")
           [Close 0%nat; Connection 2%nat;
            Message 2%nat (InMsg "pong" (Some "-1,#0000ff"))]
           eq_refl eq_refl eq_refl eq_refl).
Defined.

(** When the timeout of a sweep that was restarted fires before the
    answer, the record is gone from the authoritative list and the same
    answer is refused. *)
Example handshake_after_a_commit_is_refused :
  let st1 := fst (onConnection 1%nat init) in
  let reply := InMsg "userAccepted" (Some "1,#00ff00") in
  let r := onMessage 1%nat reply (res_state (run [Close 9%nat; Timeout] st1)) in
  res_sent r = [(1%nat, errorMessage reply)].
Proof. reflexivity. Qed.

(** X20.  A probe answered by a client that has its identity, a safe
    integer other than the sentinel.  The client answers with its identity
    and colour and stays as it is; the server puts the answer at the end
    of the provisional list, as two strings, and sends nothing.  When the
    provisional list is another array than the authoritative one, as it is
    during a sweep, the authoritative list is left alone; when both
    variables name one array, as they do after a commit, the answer stands
    at the end of the authoritative list too.  The identity of the stored
    record reads as the client's under [parseInt], as [generateUUID] and
    [updateColor] read it, but it is a string: the strict comparison of
    [userAccepted] does not find it. *)
Theorem probe_reply_is_stored_as_strings
    (ws : conn) (n : Z) (c : Client.client) (st : state) :
  wf st ->
  Client.currentUserId c = VNum n ->
  n <> -1 ->
  safe_integer (Some n) = true ->
  contains "," (Client.color c) = false ->
  let rea := Client.onmessage (OutMsg "ping" None None) c in
  let reply := InMsg "pong" (Some (numToString n +:+ "," +:+ Client.color c)) in
  let r := onMessage ws reply st in
  let user := [VStr (numToString n); VStr (Client.color c)] in
  Client.rea_sent rea = [reply]
  /\ Client.rea_client rea = c
  /\ contents (res_state r) (tempUserList st) = contents st (tempUserList st) ++ [user]
  /\ (userList st <> tempUserList st ->
      contents (res_state r) (userList st) = contents st (userList st))
  /\ (userList st = tempUserList st ->
      contents (res_state r) (userList st) = contents st (userList st) ++ [user])
  /\ res_sent r = []
  /\ res_completion r = Normal
  /\ holds (res_state r) (tempUserList st) (Some n) = true
  /\ existsb (fun u => num_strict_eq (Some n) (field0 u))
             (contents (res_state r) (tempUserList st))
     = existsb (fun u => num_strict_eq (Some n) (field0 u))
               (contents st (tempUserList st)).
Proof.
  intros Hwf Hid Hn _ Hcol. cbv zeta.
  pose proof Hwf as (_ & Ht & _)%wf_alt.
  split. { unfold Client.onmessage, Client.identity. cbn. by rewrite Hid. }
  split; [done|].
  assert (let r := onMessage ws
                     (InMsg "pong" (Some (numToString n +:+ "," +:+ Client.color c))) st in
          contents (res_state r) (tempUserList st)
            = contents st (tempUserList st)
              ++ [[VStr (numToString n); VStr (Client.color c)]]
          /\ (userList st <> tempUserList st ->
              contents (res_state r) (userList st) = contents st (userList st))
          /\ res_sent r = [] /\ res_completion r = Normal) as (Htemp & Hlist & Hsent & Hend).
  { cbv zeta. unfold onMessage, dispatch, pong. cbn [messageType data].
    change (String.eqb "pong" "userAccepted") with false.
    change (String.eqb "pong" "pong") with true.
    cbv beta iota. rewrite (split_identity n _ Hcol).
    change (field0 (VStr <$> [numToString n; Client.color c]))
      with (VStr (numToString n)).
    cbn [parseIntV]. rewrite parseInt_numToString.
    replace (num_eq (Some n) (Some (-1))) with false
      by (symmetry; cbn; apply Z.eqb_neq; lia).
    cbn [res_state res_sent res_completion].
    split; [|split; [|done]].
    - by apply contents_push_new.
    - intros Hne. apply contents_push_new_other; [done|]. intros Heq. by apply Hne. }
  split; [exact Htemp|]. split; [exact Hlist|].
  split; [intros Heq; rewrite Heq; exact Htemp|].
  split; [exact Hsent|]. split; [exact Hend|]. split.
  - unfold holds. rewrite Htemp, existsb_app. apply orb_true_iff. right.
    cbn [existsb]. change (field0 [VStr (numToString n); VStr (Client.color c)])
      with (VStr (numToString n)).
    cbn [parseIntV]. rewrite parseInt_numToString. cbn. by rewrite Z.eqb_refl.
  - rewrite Htemp, existsb_app. cbn. by rewrite orb_false_r.
Qed.

Lemma probe_reply_is_stored_as_strings_witness :
  let st := res_state (run [Connection 0%nat; Interval] init) in
  let c := Client.set_currentUserId (VNum 1) (Client.start "#00ff00") in
  let rea := Client.onmessage (OutMsg "ping" None None) c in
  let reply := InMsg "pong" (Some (numToString 1 +:+ "," +:+ Client.color c)) in
  let r := onMessage 0%nat reply st in
  let user := [VStr (numToString 1); VStr (Client.color c)] in
  Client.rea_sent rea = [reply]
  /\ Client.rea_client rea = c
  /\ contents (res_state r) (tempUserList st) = contents st (tempUserList st) ++ [user]
  /\ (userList st <> tempUserList st ->
      contents (res_state r) (userList st) = contents st (userList st))
  /\ (userList st = tempUserList st ->
      contents (res_state r) (userList st) = contents st (userList st) ++ [user])
  /\ res_sent r = []
  /\ res_completion r = Normal
  /\ holds (res_state r) (tempUserList st) (Some 1) = true
  /\ existsb (fun u => num_strict_eq (Some 1) (field0 u))
             (contents (res_state r) (tempUserList st))
     = existsb (fun u => num_strict_eq (Some 1) (field0 u))
               (contents st (tempUserList st)).
Proof.
  refine (probe_reply_is_stored_as_strings 0%nat 1
            (Client.set_currentUserId (VNum 1) (Client.start "#00ff00"))
            (res_state (run [Connection 0%nat; Interval] init))
            eq_refl eq_refl _ eq_refl eq_refl).
  lia.
Defined.

(** The same answer in the two situations: during a sweep it stands in the
    provisional list only; after the commit, in the list both variables
    name. *)
Example probe_reply_during_and_after_a_sweep :
  let during := res_state (run [Connection 0%nat; Interval] init) in
  let after := res_state (run [Connection 0%nat; Interval; Timeout] init) in
  let reply := InMsg "pong" (Some "1,#00ff00") in
  contents (res_state (onMessage 0%nat reply during)) (userList during)
    = [[VNum 1; VStr "black"]]
  /\ contents (res_state (onMessage 0%nat reply during)) (tempUserList during)
     = [[VStr "1"; VStr "#00ff00"]]
  /\ contents (res_state (onMessage 0%nat reply after)) (userList after)
     = [[VStr "1"; VStr "#00ff00"]].
Proof. repeat split. Qed.

(** ** The pointer and the interval *)

Section Pointer.

Lemma handle_all_app inputs1 inputs2 c :
  Client.handle_all (inputs1 ++ inputs2) c
    = (fst (Client.handle_all inputs2 (fst (Client.handle_all inputs1 c))),
       snd (Client.handle_all inputs1 c)
         ++ snd (Client.handle_all inputs2 (fst (Client.handle_all inputs1 c)))).
Proof.
  revert c. induction inputs1 as [|i rest IH]; intros c.
  - simpl. by destruct (Client.handle_all inputs2 c).
  - change ((i :: rest) ++ inputs2) with (i :: (rest ++ inputs2)).
    cbn [Client.handle_all]. destruct (Client.handle i c) as [c1 out1].
    rewrite IH. destruct (Client.handle_all rest c1) as [c2 out2].
    cbn [fst snd]. by rewrite app_assoc.
Qed.

Lemma unassigned_handle i c :
  Client.currentUserId c = VNum (-1) ->
  Client.clientPainting c = false ->
  Client.paintInstructionQueue c = [] ->
  Client.handle i c = (c, []).
Proof.
  intros Hid Hpainting Hqueue. destruct c as [id col users queue painting drawn].
  simpl in Hid, Hpainting, Hqueue. subst.
  by destruct i.
Qed.

Lemma moves_are_queued (moves : list (Z * Z)) c :
  Client.clientPainting c = true ->
  Client.handle_all ((fun m => Client.MouseMove (fst m) (snd m)) <$> moves) c
    = (Client.set_paintInstructionQueue
         (Client.paintInstructionQueue c
            ++ ((fun m => (fst m, snd m, Client.color c)) <$> moves)) c,
       []).
Proof.
  revert c. induction moves as [|[x y] rest IH]; intros c Hpainting.
  - destruct c as [id col users queue painting drawn]. simpl.
    unfold Client.set_paintInstructionQueue. simpl. by rewrite app_nil_r.
  - rewrite fmap_cons. cbn [Client.handle_all Client.handle fst snd].
    unfold Client.handleMouseMove at 1. rewrite Hpainting.
    rewrite IH by (by destruct c).
    destruct c as [id col users queue painting drawn].
    unfold Client.set_paintInstructionQueue. cbn.
    by rewrite <- app_assoc.
Qed.

End Pointer.

(** X21.  A client that has no identity yet sends nothing: whatever the
    pointer does and however often the interval ticks, it sends no frame,
    queues no pixel and stays as it started. *)
Theorem unassigned_client_sends_nothing (col : string) (inputs : list Client.input) :
  Client.handle_all inputs (Client.start col) = (Client.start col, []).
Proof.
  induction inputs as [|i rest IH]; [done|].
  cbn [Client.handle_all]. rewrite unassigned_handle by done. by rewrite IH.
Qed.

(** X22.  A stroke is sent as one batch.  A client that has its identity and
    an empty queue, whose pointer goes down, moves and goes up before the
    interval ticks, sends its identity and colour once and then one [paint]
    frame holding one entry for each move, in order, with its colour; its
    queue is empty again afterwards. *)
Theorem stroke_is_sent_as_one_batch
    (c : Client.client) (n : Z) (moves : list (Z * Z)) :
  Client.currentUserId c = VNum n ->
  n <> -1 ->
  Client.paintInstructionQueue c = [] ->
  moves <> [] ->
  let pixels := (fun m => (fst m, snd m, Client.color c)) <$> moves in
  let r := Client.handle_all
             (Client.MouseDown
                :: ((fun m => Client.MouseMove (fst m) (snd m)) <$> moves)
                ++ [Client.MouseUp; Client.Tick]) c in
  snd r = [InMsg "updateColor" (Some (numToString n +:+ "," +:+ Client.color c));
           InMsg "paint" (Some (join ";" (Client.entryToString <$> pixels)))]
  /\ Client.paintInstructionQueue (fst r) = []
  /\ Client.clientPainting (fst r) = false.
Proof.
  intros Hid Hn Hqueue Hmoves. cbv zeta.
  destruct c as [id col users queue painting drawn]. simpl in Hid, Hqueue. subst.
  cbn [Client.handle_all Client.handle Client.setClientPainting].
  replace (num_strict_eq (Some (-1)) (Client.currentUserId _)) with false
    by (symmetry; apply (proj2 (Z.eqb_neq (-1) n)); lia).
  cbn [negb]. rewrite handle_all_app.
  rewrite moves_are_queued by done. cbn [fst snd].
  destruct moves as [|[x y] rest]; [done|].
  cbn. done.
Qed.

Lemma stroke_is_sent_as_one_batch_witness :
  let c := Client.set_currentUserId (VNum 1) (Client.start "#00ff00") in
  let moves := [(3, 4); (3, 5)] in
  let pixels := (fun m => (fst m, snd m, Client.color c)) <$> moves in
  let r := Client.handle_all
             (Client.MouseDown
                :: ((fun m => Client.MouseMove (fst m) (snd m)) <$> moves)
                ++ [Client.MouseUp; Client.Tick]) c in
  snd r = [InMsg "updateColor" (Some (numToString 1 +:+ "," +:+ Client.color c));
           InMsg "paint" (Some (join ";" (Client.entryToString <$> pixels)))]
  /\ Client.paintInstructionQueue (fst r) = []
  /\ Client.clientPainting (fst r) = false.
Proof.
  refine (stroke_is_sent_as_one_batch
            (Client.set_currentUserId (VNum 1) (Client.start "#00ff00")) 1
            [(3, 4); (3, 5)] eq_refl _ eq_refl _).
  - lia.
  - discriminate.
Defined.

(** ** The colour of a client *)

Section Colour.

Lemma length_append (a b : string) :
  String.length (a +:+ b) = (String.length a + String.length b)%nat.
Proof. induction a as [|x a IH]; simpl; [done|]. by rewrite IH. Qed.

(** A component below 256 prints as one hexadecimal digit when it is below
    16 and as two otherwise, and never holds a separator. *)
Lemma toString16_byte (r : Z) :
  0 <= r < 256 ->
  String.length (Client.toString16 r) = (if r <? 16 then 1%nat else 2%nat)
  /\ contains "," (Client.toString16 r) = false
  /\ contains ";" (Client.toString16 r) = false.
Proof.
  intros Hr.
  assert (forallb
            (fun k : nat =>
               let r := Z.of_nat k in
               Nat.eqb (String.length (Client.toString16 r))
                       (if r <? 16 then 1%nat else 2%nat)
               && negb (contains "," (Client.toString16 r))
               && negb (contains ";" (Client.toString16 r)))
            (List.seq 0 256) = true) as Hall by (vm_compute; reflexivity).
  rewrite forallb_forall in Hall.
  specialize (Hall (Z.to_nat r)). rewrite Z2Nat.id in Hall by lia.
  cbv zeta in Hall.
  assert (In (Z.to_nat r) (List.seq 0 256)) as Hin by (apply in_seq; lia).
  apply Hall in Hin.
  apply andb_true_iff in Hin as [Hin Hsemi].
  apply andb_true_iff in Hin as [Hlen Hcomma].
  apply Nat.eqb_eq in Hlen. apply negb_true_iff in Hcomma, Hsemi. done.
Qed.

End Colour.

(** X23.  [randomColor] does not pad its components: for three components
    below 256 the colour is [#] followed by three to six hexadecimal
    digits, six of them only when every component is at least 16; it never
    holds a separator of the protocol. *)
Theorem randomColor_is_not_padded (r g b : Z) :
  0 <= r < 256 -> 0 <= g < 256 -> 0 <= b < 256 ->
  (4 <= String.length (Client.randomColor r g b) <= 7)%nat
  /\ (String.length (Client.randomColor r g b) = 7%nat
      <-> 16 <= r /\ 16 <= g /\ 16 <= b)
  /\ plain (Client.randomColor r g b) = true.
Proof.
  intros Hr Hg Hb.
  destruct (toString16_byte r Hr) as (Hlr & Hcr & Hsr).
  destruct (toString16_byte g Hg) as (Hlg & Hcg & Hsg).
  destruct (toString16_byte b Hb) as (Hlb & Hcb & Hsb).
  assert (Client.randomColor r g b
          = String "#" (Client.toString16 r +:+ Client.toString16 g
                          +:+ Client.toString16 b)) as ->.
  { unfold Client.randomColor. cbn [join]. reflexivity. }
  unfold plain. cbn [String.length contains].
  rewrite !length_append, !contains_append, Hlr, Hlg, Hlb, Hcr, Hcg, Hcb, Hsr, Hsg, Hsb.
  split; [|split; [|done]].
  - destruct (r <? 16), (g <? 16), (b <? 16); simpl; lia.
  - destruct (Z.ltb_spec r 16), (Z.ltb_spec g 16), (Z.ltb_spec b 16); simpl; lia.
Qed.

Lemma randomColor_is_not_padded_witness :
  (4 <= String.length (Client.randomColor 0 10 255) <= 7)%nat
  /\ (String.length (Client.randomColor 0 10 255) = 7%nat
      <-> 16 <= 0 /\ 16 <= 10 /\ 16 <= 255)
  /\ plain (Client.randomColor 0 10 255) = true.
Proof. apply (randomColor_is_not_padded 0 10 255); lia. Defined.

Example randomColor_examples :
  Client.randomColor 0 10 255 = "#0aff"
  /\ Client.randomColor 255 128 16 = "#ff8010"
  /\ Client.randomColor 0 0 0 = "#000".
Proof. repeat split. Qed.

(** X24.  The colour of a client is chosen once.  Whatever the stored item
    was, after [randomOrCachedColor] the item holds the colour returned,
    which is not empty, and every later call returns that colour and
    leaves the item alone, whatever the random numbers; an item that was
    there and not empty is the colour returned. *)
Theorem cached_color_is_kept (r g b : Z) (item : option string) :
  let col := fst (Client.randomOrCachedColor r g b item) in
  let item' := snd (Client.randomOrCachedColor r g b item) in
  item' = Some col
  /\ col <> ""
  /\ (forall r' g' b', Client.randomOrCachedColor r' g' b' item' = (col, item'))
  /\ (forall cached, item = Some cached -> cached <> "" -> col = cached).
Proof.
  cbv zeta. unfold Client.randomOrCachedColor.
  destruct item as [cached|].
  - destruct (String.eqb_spec cached "") as [->|Hcached].
    + cbn [fst snd]. repeat split; try done. intros cached [= <-]. done.
    + cbn [fst snd]. repeat split; try done.
      * intros r' g' b'. by destruct (String.eqb_spec cached "").
      * by intros ? [= <-].
  - cbn [fst snd]. repeat split; done.
Qed.

(** ** The user list, as a client reads it *)

Section UserList.

Lemma filter_fmap {A B : Type} (p : B -> bool) (g : A -> B) (l : list A) :
  List.filter p (g <$> l) = g <$> List.filter (fun x => p (g x)) l.
Proof.
  induction l as [|x l IH]; [done|].
  rewrite fmap_cons. cbn [List.filter]. destruct (p (g x)); [|done].
  by rewrite fmap_cons, IH.
Qed.

(** A record that carries its identity as a number, as [addUser] makes it,
    or as the decimal string a reply brought, prints as identity, comma,
    colour. *)
Lemma recordToString_user u id col :
  u = [VNum id; VStr col] \/ u = [VStr (numToString id); VStr col] ->
  recordToString u = numToString id +:+ "," +:+ col.
Proof. by intros [-> | ->]. Qed.

Lemma user_no_semicolon id col :
  plain col = true -> contains ";" (numToString id +:+ "," +:+ col) = false.
Proof.
  intros Hcol.
  change (numToString id +:+ "," +:+ col) with (numToString id +:+ String "," col).
  rewrite contains_append. cbn [contains].
  rewrite contains_numToString by done.
  by rewrite (plain_no_semicolon col).
Qed.

Lemma records_print (us : list record) (es : list (Z * string)) :
  Forall2 (fun u e => u = [VNum (fst e); VStr (snd e)]
                      \/ u = [VStr (numToString (fst e)); VStr (snd e)]) us es ->
  recordToString <$> us = (fun e => numToString (fst e) +:+ "," +:+ snd e) <$> es.
Proof.
  induction 1 as [|u e us es Hu _ IH]; [done|].
  by rewrite !fmap_cons, (recordToString_user u (fst e) (snd e) Hu), IH.
Qed.

End UserList.

(** X25.  A client lists every other user once.  When each record of a
    list carries an identity, as a number or as its decimal string, and a
    colour without separators, the client that is sent the list as the
    server joins it keeps one entry of identity and colour for each record
    whose identity is not its own, in the order of the list, and sends
    nothing. *)
Theorem client_lists_the_others
    (st : state) (a : nat) (c : Client.client) (n : Z) (users : list (Z * string)) :
  Client.currentUserId c = VNum n ->
  users <> [] ->
  Forall (fun e => plain (snd e) = true) users ->
  Forall2 (fun u e => u = [VNum (fst e); VStr (snd e)]
                      \/ u = [VStr (numToString (fst e)); VStr (snd e)])
          (contents st a) users ->
  Client.onmessage
    (OutMsg "announceConnectedUsers" (Some (PStr (joinUsers st a))) None) c
  = Client.Reaction
      (Client.set_foreignUserList
         ((fun e => [numToString (fst e); snd e])
            <$> List.filter (fun e => negb (fst e =? n)) users) c)
      [] Normal.
Proof.
  intros Hid Hne Hplain Hrecords.
  unfold Client.onmessage, joinUsers. rewrite (records_print _ _ Hrecords).
  cbn [out_messageType Client.data_value out_data].
  change (String.eqb "announceConnectedUsers" "announceUUID") with false.
  change (String.eqb "announceConnectedUsers" "announceConnectedUsers") with true.
  cbv beta iota.
  rewrite (split_join ";").
  - f_equal. f_equal. rewrite Hid. clear Hrecords Hne.
    induction Hplain as [|e es He _ IH]; [done|].
    rewrite !fmap_cons. cbn [List.filter].
    rewrite (split_identity _ _ (plain_no_comma _ He)).
    cbn [lookup list_lookup default from_option id].
    rewrite parseInt_numToString.
    change (num_strict_eq (Some (fst e)) (VNum n)) with (fst e =? n).
    destruct (fst e =? n); cbn [negb]; by rewrite ?fmap_cons, IH.
  - by destruct users.
  - apply Forall_fmap. eapply Forall_impl; [exact Hplain|].
    intros e He. by apply user_no_semicolon.
Qed.

Lemma client_lists_the_others_witness :
  let st := res_state (run [Connection 0%nat; Interval;
                            Message 0%nat (InMsg "pong" (Some "1,#ff0000"));
                            Connection 1%nat; Timeout] init) in
  let c := Client.set_currentUserId (VNum 1) (Client.start "#ff0000") in
  let users := [(1, "#ff0000"); (2, "black")] in
  Client.onmessage
    (OutMsg "announceConnectedUsers" (Some (PStr (joinUsers st (userList st)))) None) c
  = Client.Reaction
      (Client.set_foreignUserList
         ((fun e => [numToString (fst e); snd e])
            <$> List.filter (fun e => negb (fst e =? 1)) users) c)
      [] Normal.
Proof.
  refine (client_lists_the_others
            (res_state (run [Connection 0%nat; Interval;
                             Message 0%nat (InMsg "pong" (Some "1,#ff0000"));
                             Connection 1%nat; Timeout] init))
            _ (Client.set_currentUserId (VNum 1) (Client.start "#ff0000")) 1
            [(1, "#ff0000"); (2, "black")] eq_refl _ _ _).
  - discriminate.
  - repeat constructor.
  - change (Forall2 (fun u e => u = [VNum (fst e); VStr (snd e)]
                               \/ u = [VStr (numToString (fst e)); VStr (snd e)])
                    [[VStr "1"; VStr "#ff0000"]; [VNum 2; VStr "black"]]
                    [(1, "#ff0000"); (2, "black")]).
    constructor; [right; reflexivity|]. constructor; [left; reflexivity|]. constructor.
Defined.
